(** * Task stores of the a2a server: InMemoryTaskStore and FileStore

    A shallow embedding of the store module of the a2a server (the
    [TaskStore] interface and its two implementations, [InMemoryTaskStore]
    and [FileStore]) and the properties of its persistence contract.
    The research agent that the server runs on the history a store hands
    out is embedded after the stores.

    JavaScript values live in an explicit heap so that the sharing created
    by the spread copies [{...task}] and [[...history]] is visible; the file
    system is a finite map from paths to nodes together with a log of the
    calls made to [fs] and the scheduling of the event loop, which decides
    how far a write has got when [Promise.all] is rejected.  Paths follow
    Node's POSIX rules, [path.join] normalising what it joins.  What the
    stores and the agent print on the console is left out. *)

From Stdlib Require Import ZArith Ascii.
From stdpp Require Import base option list gmap strings fin_maps.

Open Scope Z_scope.

(** ** Strings and paths *)

Module Path.

Definition sep : ascii := "/"%char.

(** [String.prototype.includes]: the needle occurs at some offset. *)
Fixpoint includes (needle hay : string) : bool :=
  String.prefix needle hay ||
  match hay with
  | EmptyString => false
  | String _ hay' => includes needle hay'
  end.

(** [path.basename] (POSIX flavour, no suffix argument).  Node scans the
    path from its last character: trailing separators are skipped, then
    characters are taken up to the next separator.  The two phases of
    that loop are [skip_seps] and [take_segment], both run on the
    reversed path. *)
Fixpoint skip_seps (r : string) : string :=
  match r with
  | EmptyString => EmptyString
  | String c r' => if Ascii.eqb c sep then skip_seps r' else r
  end.

Fixpoint take_segment (r acc : string) : string :=
  match r with
  | EmptyString => acc
  | String c r' => if Ascii.eqb c sep then acc else take_segment r' (String c acc)
  end.

Definition basename (p : string) : string :=
  take_segment (skip_seps (String.rev p)) EmptyString.

Fixpoint has_sep (s : string) : bool :=
  match s with
  | EmptyString => false
  | String c s' => Ascii.eqb c sep || has_sep s'
  end.

(** The segments between the separators of a path. *)
Fixpoint split (p : string) : list string :=
  match p with
  | EmptyString => [EmptyString]
  | String c p' =>
      if Ascii.eqb c sep then EmptyString :: split p'
      else match split p' with
           | s :: ss => String c s :: ss
           | [] => [String c EmptyString]
           end
  end.

(** One step of [normalizeString], which [path.normalize] runs over the
    segments; [kept] holds the segments kept so far, the last one first.
    An empty segment and [.] are dropped; [..] takes the last segment
    away, and is itself kept when there is none to take and the path is
    relative. *)
Definition push (allowAboveRoot : bool) (kept : list string) (seg : string)
    : list string :=
  if String.eqb seg "" || String.eqb seg "." then kept
  else if String.eqb seg ".." then
    match kept with
    | top :: rest =>
        if String.eqb top ".." then (if allowAboveRoot then seg :: kept else kept)
        else rest
    | [] => if allowAboveRoot then [seg] else []
    end
  else seg :: kept.

Definition is_absolute (p : string) : bool :=
  match p with
  | String c _ => Ascii.eqb c sep
  | EmptyString => false
  end.

Fixpoint ends_with_sep (p : string) : bool :=
  match p with
  | EmptyString => false
  | String c EmptyString => Ascii.eqb c sep
  | String _ p' => ends_with_sep p'
  end.

(** The segments of the normal form of [p]. *)
Definition segments (p : string) : list string :=
  rev (foldl (push (negb (is_absolute p))) [] (split p)).

Definition root (p : string) : string := if is_absolute p then "/" else "".

(** [path.normalize] *)
Definition normalize (p : string) : string :=
  if String.eqb p "" then "."
  else
    match segments p with
    | [] => if is_absolute p then "/" else if ends_with_sep p then "./" else "."
    | segs =>
        root p +:+ String.concat "/" segs +:+ (if ends_with_sep p then "/" else "")
    end.

(** [path.join(dir, name)]: the arguments that are not empty are joined
    with a separator, and the result is normalised. *)
Definition join (dir name : string) : string :=
  if String.eqb dir "" then (if String.eqb name "" then "." else normalize name)
  else if String.eqb name "" then normalize dir
  else normalize (dir +:+ "/" +:+ name).

(** The directories on the way to [p], outermost first and [p] last, each
    in normal form.  The root and the directories above a relative path
    are there in any case and are not listed. *)
Definition directories (p : string) : list string :=
  omap (λ k, let d := take k (segments p) in
             if forallb (String.eqb "..") d then None
             else Some (root p +:+ String.concat "/" d))
       (seq 1 (length (segments p))).

(** A single segment that names an entry: there is no separator in it,
    and it is not empty, [.] or [..]. *)
Definition plain (name : string) : bool :=
  negb (has_sep name) && negb (String.eqb name "") && negb (String.eqb name ".")
  && negb (String.eqb name "..").

(** What [join] puts before a plain segment: the normal form of the
    directory and a separator, or nothing when that normal form is [.]. *)
Definition stem (dir : string) : string :=
  if String.eqb dir "" then ""
  else root dir +:+
       match segments dir with
       | [] => ""
       | segs => String.concat "/" segs +:+ "/"
       end.

End Path.

(** ** JSON documents *)

(** The numbers of a document are kept to the integers: timestamps,
    counters and indices are all the stores ever see of them, and
    [JSON.stringify] prints an integer the way [JSON.parse] reads it.
    [NaN], which no document holds, is a value only. *)
#[local] Unset Elimination Schemes.
Inductive json : Type :=
  | JNull
  | JBool (b : bool)
  | JNum (z : Z)
  | JStr (s : string)
  | JArr (items : list json)
  | JObj (fields : list (string * json)).
#[local] Set Elimination Schemes.

(** Structural induction that reaches the documents nested in lists. *)
Definition json_ind (P : json → Prop)
    (Hnull : P JNull) (Hbool : ∀ b, P (JBool b)) (Hnum : ∀ z, P (JNum z))
    (Hstr : ∀ s, P (JStr s))
    (Harr : ∀ ts, Forall P ts → P (JArr ts))
    (Hobj : ∀ fs, Forall (λ kt, P kt.2) fs → P (JObj fs)) : ∀ t, P t :=
  fix go (t : json) : P t :=
    match t with
    | JNull => Hnull
    | JBool b => Hbool b
    | JNum z => Hnum z
    | JStr s => Hstr s
    | JArr ts =>
        Harr ts ((fix all (ts : list json) : Forall P ts :=
                    match ts with
                    | [] => Forall_nil_2 _
                    | t :: ts' => Forall_cons_2 _ _ _ (go t) (all ts')
                    end) ts)
    | JObj fs =>
        Hobj fs ((fix all (fs : list (string * json)) : Forall (λ kt, P kt.2) fs :=
                    match fs with
                    | [] => Forall_nil_2 _
                    | kt :: fs' => Forall_cons_2 _ _ _ (go kt.2) (all fs')
                    end) fs)
    end.

(** Property lookup in an association list of own properties. *)
Fixpoint assoc {A} (k : string) (fs : list (string * A)) : option A :=
  match fs with
  | [] => None
  | (k', v) :: fs' => if String.eqb k k' then Some v else assoc k fs'
  end.

(** ** JavaScript values and the heap *)

(** The values that tasks and messages are made of: [null], booleans,
    numbers, strings, and references to the objects and arrays of the
    heap, which are JSON data, and two values that are not: [undefined],
    which an optional property may be set to, and the number [NaN].  A
    property that is missing is [None] where it is read.  The objects are
    plain objects and arrays: one with a [toJSON] of its own, a [Date]
    say, is left out. *)
Definition loc := positive.

Inductive jsval : Type :=
  | VNull
  | VBool (b : bool)
  | VNum (z : Z)
  | VStr (s : string)
  | VRef (l : loc)
  | VUndefined
  | VNaN.

Inductive obj : Type :=
  | OObject (props : list (string * jsval))
  | OArray (elems : list jsval).

Abbreviation heap := (gmap loc obj).

Definition new_object (o : obj) (h : heap) : loc * heap :=
  let l := fresh (dom h) in (l, <[l := o]> h).
Arguments new_object : simpl never.

(** The JSON document that a value is, read off the heap: its deep
    structure, property by property and element by element.  The walk is
    cut after [n] nested objects; a reference outside the heap or a walk
    that is cut has no tree, and neither has a value that holds
    [undefined] or [NaN] anywhere, which is no JSON data. *)
Fixpoint reify (n : nat) (h : heap) (v : jsval) : option json :=
  match v with
  | VNull => Some JNull
  | VBool b => Some (JBool b)
  | VNum z => Some (JNum z)
  | VStr s => Some (JStr s)
  | VRef l =>
      match n with
      | O => None
      | S n' =>
          match h !! l with
          | None => None
          | Some (OArray vs) => JArr <$> mapM (reify n' h) vs
          | Some (OObject ps) =>
              JObj <$> mapM (λ kv, pair kv.1 <$> reify n' h kv.2) ps
          end
      end
  | VUndefined | VNaN => None
  end.

(** An [undefined] element of an array is written [null]; a property
    whose value is [undefined] is not written. *)
Definition element (o : option json) : json := default JNull o.

Definition field (k : string) (o : option json) : option (string * json) :=
  pair k <$> o.

(** What [JSON.stringify] makes of a value; the inner [None] is
    [undefined], for which there is no text, and [NaN] is written [null].
    The walk is cut as that of [reify] is. *)
Fixpoint serialize (n : nat) (h : heap) (v : jsval) : option (option json) :=
  match v with
  | VUndefined => Some None
  | VNull | VNaN => Some (Some JNull)
  | VBool b => Some (Some (JBool b))
  | VNum z => Some (Some (JNum z))
  | VStr s => Some (Some (JStr s))
  | VRef l =>
      match n with
      | O => None
      | S n' =>
          match h !! l with
          | None => None
          | Some (OArray vs) =>
              ts ← mapM (λ v, element <$> serialize n' h v) vs;
              Some (Some (JArr ts))
          | Some (OObject ps) =>
              fs ← mapM (λ kv, field kv.1 <$> serialize n' h kv.2) ps;
              Some (Some (JObj (omap id fs)))
          end
      end
  end.

(** Runs an allocating function over a list, left to right. *)
Definition thread {A B} (f : A → heap → B * heap) : list A → heap → list B * heap :=
  fix go xs h :=
    match xs with
    | [] => ([], h)
    | x :: xs' =>
        let '(y, h1) := f x h in
        let '(ys, h2) := go xs' h1 in
        (y :: ys, h2)
    end.

(** Fresh objects for a parsed document, as [JSON.parse] builds them. *)
Fixpoint materialize (t : json) (h : heap) : jsval * heap :=
  match t with
  | JNull => (VNull, h)
  | JBool b => (VBool b, h)
  | JNum z => (VNum z, h)
  | JStr s => (VStr s, h)
  | JArr ts =>
      let '(vs, h1) := thread materialize ts h in
      let '(l, h2) := new_object (OArray vs) h1 in
      (VRef l, h2)
  | JObj fs =>
      let '(ps, h1) :=
        thread (λ kt h, let '(v, h1) := materialize kt.2 h in ((kt.1, v), h1)) fs h in
      let '(l, h2) := new_object (OObject ps) h1 in
      (VRef l, h2)
  end.

Fixpoint depth (t : json) : nat :=
  match t with
  | JArr ts => S (foldr (λ t d, Nat.max (depth t) d) O ts)
  | JObj fs => S (foldr (λ kt d, Nat.max (depth kt.2) d) O fs)
  | _ => O
  end.

(** ** Exceptions and the sequencing of effects *)

(** Modelled from the spec: the [A2AError] class is not among the sources.
    Its two factories that the stores call are kept as constructors:
    [InvalidParams] for [A2AError.invalidParams], the specification's
    InvalidIdentifier, and [InternalError] for [A2AError.internalError],
    its StorageError, which wraps the cause.  The other constructors are
    Node's system errors (they carry a [code]) and the built-in
    [SyntaxError] and [TypeError]. *)
Inductive js_error : Type :=
  | SystemError (code : string) (message : string)
  | SyntaxError (message : string)
  | TypeError (message : string)
  | InvalidParams (message : string)
  | InternalError (message : string) (cause : js_error).

Definition error_message (e : js_error) : string :=
  match e with
  | SystemError _ m | SyntaxError m | TypeError m
  | InvalidParams m | InternalError m _ => m
  end.

Definition error_code (e : js_error) : option string :=
  match e with
  | SystemError c _ => Some c
  | _ => None
  end.

Inductive outcome (A : Type) : Type :=
  | Returns (a : A)
  | Throws (e : js_error).
Arguments Returns {A} a.
Arguments Throws {A} e.

(** A computation over a world [W]: the world it leaves is kept when it
    throws, as a [catch] block sees every effect made before the throw. *)
Definition M (W A : Type) : Type := W → outcome A * W.

#[global] Instance M_ret {W} : MRet (M W) := λ A a w, (Returns a, w).
#[global] Instance M_bind {W} : MBind (M W) := λ A B f c w,
  match c w with
  | (Returns a, w') => f a w'
  | (Throws e, w') => (Throws e, w')
  end.

Definition throw {W A} (e : js_error) : M W A := λ w, (Throws e, w).

Definition try_catch {W A} (body : M W A) (handler : js_error → M W A) : M W A :=
  λ w, match body w with
       | (Returns a, w') => (Returns a, w')
       | (Throws e, w') => handler e w'
       end.

(** Runs a computation to its settlement, as a pending promise does. *)
Definition settle {W A} (c : M W A) : M W (outcome A) :=
  λ w, let '(r, w') := c w in (Returns r, w').

Definition lift_outcome {W A} (r : outcome A) : M W A := λ w, (r, w).

(** Heap access from a world that pairs the heap with a store's backing. *)
Section HeapOps.
Context {S : Type}.

Definition alloc (o : obj) : M (heap * S) jsval :=
  λ '(h, s), let '(l, h') := new_object o h in (Returns (VRef l), (h', s)).

(** The own properties of an object value.  The stores only apply this
    to values their TypeScript signatures type as objects. *)
Definition props_of (v : jsval) : M (heap * S) (list (string * jsval)) :=
  λ '(h, s),
    match v with
    | VRef l =>
        match h !! l with
        | Some (OObject ps) => (Returns ps, (h, s))
        | _ => (Throws (TypeError "not a plain object"), (h, s))
        end
    | _ => (Throws (TypeError "not a plain object"), (h, s))
    end.

(** The elements of an array value ([[...xs]] iterates it). *)
Definition elems_of (v : jsval) : M (heap * S) (list jsval) :=
  λ '(h, s),
    match v with
    | VRef l =>
        match h !! l with
        | Some (OArray vs) => (Returns vs, (h, s))
        | _ => (Throws (TypeError "not iterable"), (h, s))
        end
    | _ => (Throws (TypeError "not iterable"), (h, s))
    end.

(** [o.k] for a property the type declares. *)
Definition prop (k : string) (ps : list (string * jsval)) : M (heap * S) jsval :=
  match assoc k ps with
  | Some v => mret v
  | None => throw (TypeError ("missing property " +:+ k))
  end.

Definition string_of (v : jsval) : M (heap * S) string :=
  match v with
  | VStr s => mret s
  | _ => throw (TypeError "not a string")
  end.

(** [JSON.parse] hands the caller objects nobody else holds. *)
Definition fresh_copy (t : json) : M (heap * S) jsval :=
  λ '(h, s), let '(v, h') := materialize t h in (Returns v, (h', s)).

(** What a caller can do to an object it holds: read a property or an
    element, assign a property, push onto an array. *)
Definition read (o : jsval) (k : string) : M (heap * S) jsval :=
  ps ← props_of o; prop k ps.

Definition at_index (a : jsval) (i : nat) : M (heap * S) jsval :=
  vs ← elems_of a;
  match vs !! i with
  | Some v => mret v
  | None => throw (TypeError "index out of range")
  end.

Fixpoint set_assoc (k : string) (v : jsval) (ps : list (string * jsval))
    : list (string * jsval) :=
  match ps with
  | [] => [(k, v)]
  | (k', v') :: ps' =>
      if String.eqb k k' then (k, v) :: ps' else (k', v') :: set_assoc k v ps'
  end.

Definition assign (o : jsval) (k : string) (v : jsval) : M (heap * S) unit :=
  λ '(h, s),
    match o with
    | VRef l =>
        match h !! l with
        | Some (OObject ps) => (Returns (), (<[l := OObject (set_assoc k v ps)]> h, s))
        | _ => (Throws (TypeError "not a plain object"), (h, s))
        end
    | _ => (Throws (TypeError "not a plain object"), (h, s))
    end.

Definition push (a : jsval) (v : jsval) : M (heap * S) unit :=
  λ '(h, s),
    match a with
    | VRef l =>
        match h !! l with
        | Some (OArray vs) => (Returns (), (<[l := OArray (vs ++ [v])]> h, s))
        | _ => (Throws (TypeError "push is not a function"), (h, s))
        end
    | _ => (Throws (TypeError "push is not a function"), (h, s))
    end.

Definition get_backing : M (heap * S) S := λ '(h, s), (Returns s, (h, s)).
Definition get_heap : M (heap * S) heap := λ '(h, s), (Returns h, (h, s)).
Definition set_backing (s' : S) : M (heap * S) unit := λ '(h, _), (Returns (), (h, s')).
End HeapOps.

(** ** The [TaskStore] interface *)

(** [save(data)] and [load(taskId)]; [load] answers [null] ([VNull]) for a
    task it does not hold.  [T] is the store object, [S] what backs it. *)
Class TaskStore (T S : Type) : Type := {
  save : T → jsval → M (heap * S) unit;
  load : T → string → M (heap * S) jsval;
}.

(** The two halves of a [TaskAndHistory] value, as trees. *)
Definition view (n : nat) (h : heap) (data : jsval) : option (json * json) :=
  match data with
  | VRef l =>
      match h !! l with
      | Some (OObject ps) =>
          task ← assoc "task" ps;
          history ← assoc "history" ps;
          t ← reify n h task;
          hs ← reify n h history;
          Some (t, hs)
      | _ => None
      end
  | _ => None
  end.

(** [task.id] of a task document. *)
Definition task_id (t : json) : option string :=
  match t with
  | JObj fs => match assoc "id" fs with Some (JStr s) => Some s | _ => None end
  | _ => None
  end.

(** ** InMemoryTaskStore *)

Module InMemoryTaskStore.

(** [private store: Map<string, TaskAndHistory>]: the map holds references
    to the entry objects that [save] builds. *)
Abbreviation backing := (gmap string jsval).

(** [entry ? {task: {...entry.task}, history: [...entry.history]} : null] *)
Definition load (taskId : string) : M (heap * backing) jsval :=
  store ← get_backing;
  match store !! taskId with
  | None => mret VNull
  | Some entry =>
      e ← props_of entry;
      task ← prop "task" e;
      history ← prop "history" e;
      tps ← props_of task;
      hs ← elems_of history;
      task' ← alloc (OObject tps);
      history' ← alloc (OArray hs);
      alloc (OObject [("task", task'); ("history", history')])
  end.

(** [this.store.set(data.task.id,
      {task: {...data.task}, history: [...data.history]})] *)
Definition save (data : jsval) : M (heap * backing) unit :=
  d ← props_of data;
  task ← prop "task" d;
  tps ← props_of task;
  id ← prop "id" tps ≫= string_of;
  history ← prop "history" d;
  hs ← elems_of history;
  task' ← alloc (OObject tps);
  history' ← alloc (OArray hs);
  entry ← alloc (OObject [("task", task'); ("history", history')]);
  store ← get_backing;
  set_backing (<[id := entry]> store).

(** The two trees of the entry kept for [taskId], if there is one. *)
Definition stored (n : nat) (h : heap) (store : backing) (taskId : string)
    : option (json * json) :=
  entry ← store !! taskId; view n h entry.

End InMemoryTaskStore.

#[global] Instance InMemoryTaskStore_TaskStore : TaskStore unit (gmap string jsval) := {
  save _ := InMemoryTaskStore.save;
  load _ := InMemoryTaskStore.load;
}.

(** ** Ids *)

(** An id that [FileStore] accepts: it is its own final path segment and
    has no [..] in it. *)
Definition valid_id (id : string) : bool :=
  String.eqb (Path.basename id) id && negb (Path.includes ".." id).

(** ** FileStore *)

Module FileStore.

(** What a file holds, seen through [JSON.parse]: text that parses to a
    document, or text that [JSON.parse] rejects.  [JSON.stringify] writes
    text of the first kind, for the tree of the value it is given. *)
Inductive content : Type :=
  | Text (doc : json)
  | Garbled (raw : string).

(** A path names a directory, a regular file, or an entry on which every
    call fails with the system error [code]: a file the process may not
    open ([EACCES]), a link to nothing ([ENOENT]), and the like.  A path
    absent from the disk is a file that does not exist. *)
Inductive node : Type :=
  | Dir
  | Regular (c : content)
  | Blocked (code : string).

Inductive fs_op : Type :=
  | Mkdir (p : string)
  | ReadFile (p : string)
  | WriteFile (p : string).

(** How far a write has got when [Promise.all] is rejected because the
    other write failed: its call to [fs.writeFile] is still to come; the
    call is made and the file is not opened yet; the file is opened for
    writing, and so emptied, and holds [raw], a part of the text that is
    not all of it; or the text is written. *)
Inductive progress : Type :=
  | Waiting
  | Called
  | Opened (raw : string)
  | Written.

(** What the event loop settles for two writes that run side by side,
    should one of them fail: whether the second write is the first to be
    rejected when both fail, and how far the other write has got at the
    first rejection. *)
Record turn : Type := Turn {
  second_first : bool;
  other : progress;
}.

(** The file system: what each path holds, the log of the calls made to
    [fs], and the scheduling of the event loop, given for every length
    the log can have when it is asked.  A path is kept in normal form,
    relative to the working directory when it is relative. *)
Record backing : Type := Backing {
  disk : gmap string node;
  trace : list fs_op;
  schedule : nat → turn;
}.

Abbreviation world := (heap * backing)%type.

Record t : Type := { baseDir : string }.

(** [this.baseDir = options?.dir || '.a2a-tasks'] *)
Definition new (dir : option string) : t :=
  {| baseDir := match dir with
                | Some (String c d) => String c d
                | _ => ".a2a-tasks"
                end |}.

(** *** The calls into [fs] and [JSON] *)

Definition logged (op : fs_op) (σ : backing) : backing :=
  {| disk := disk σ; trace := trace σ ++ [op]; schedule := schedule σ |}.

Definition log (op : fs_op) : M world unit :=
  σ ← get_backing;
  set_backing (logged op σ).

Definition set_disk (d : gmap string node) : M world unit :=
  σ ← get_backing;
  set_backing {| disk := d; trace := trace σ; schedule := schedule σ |}.

Definition quoted (s : string) : string :=
  String (ascii_of_nat 34) (s +:+ String (ascii_of_nat 34) "").

Definition system_error {A} (code syscall p : string) : M world A :=
  throw (SystemError code (code +:+ ": " +:+ syscall +:+ " '" +:+ p +:+ "'")).

(** The first of the directories [ds] that is there and is no directory. *)
Fixpoint obstacle (d : gmap string node) (ds : list string) : option (string * node) :=
  match ds with
  | [] => None
  | k :: ds' =>
      match d !! k with
      | None | Some Dir => obstacle d ds'
      | Some nd => Some (k, nd)
      end
  end.

Definition mkdirs (ds : list string) (d : gmap string node) : gmap string node :=
  foldr (λ k d, <[k := Dir]> d) d ds.

(** [fs.mkdir(p, {recursive: true})]: the directory is made together with
    the ancestors it lacks, and one that is there is left as it is.  The
    call fails, and makes nothing, for the empty path and when an entry on
    the way is there and is no directory. *)
Definition fs_mkdir (p : string) : M world unit :=
  log (Mkdir p);;
  σ ← get_backing;
  if String.eqb p "" then system_error "ENOENT" "mkdir" p
  else
    match obstacle (disk σ) (Path.directories p) with
    | None => set_disk (mkdirs (Path.directories p) (disk σ))
    | Some (k, Blocked code) => system_error code "mkdir" p
    | Some (k, _) =>
        if decide (Some k = last (Path.directories p))
        then system_error "EEXIST" "mkdir" p
        else system_error "ENOTDIR" "mkdir" p
    end.

(** [fs.readFile(p, 'utf8')], for a path in normal form. *)
Definition fs_readFile (p : string) : M world content :=
  log (ReadFile p);;
  σ ← get_backing;
  match disk σ !! p with
  | None => system_error "ENOENT" "open" p
  | Some Dir => system_error "EISDIR" "read" p
  | Some (Regular c) => mret c
  | Some (Blocked code) => system_error code "open" p
  end.

(** [fs.writeFile(p, text, 'utf8')], for a path in normal form.  The
    stores make the directory before every write, so the parent of [p] is
    there when this runs. *)
Definition fs_writeFile (p : string) (c : content) : M world unit :=
  log (WriteFile p);;
  σ ← get_backing;
  match disk σ !! p with
  | None | Some (Regular _) => set_disk (<[p := Regular c]> (disk σ))
  | Some Dir => system_error "EISDIR" "open" p
  | Some (Blocked code) => system_error code "open" p
  end.

Definition JSON_parse (c : content) : M world json :=
  match c with
  | Text doc => mret doc
  | Garbled _ => throw (SyntaxError "Unexpected token in JSON")
  end.

(** [JSON.stringify(v, null, 2)], handed to [fs.writeFile] as its data.
    A walk longer than the heap has objects has met an object twice.  For
    [undefined] there is no text, and [fs.writeFile] refuses what it is
    handed before it touches the disk. *)
Definition JSON_stringify (v : jsval) : M world content :=
  h ← get_heap;
  match serialize (S (size h)) h v with
  | Some (Some doc) => mret (Text doc)
  | Some None =>
      throw (TypeError
               ("The " +:+ quoted "data" +:+ " argument must be of type string or an"
                  +:+ " instance of Buffer, TypedArray, or DataView. Received undefined"))
  | None => throw (TypeError "Converting circular structure to JSON")
  end.

(** *** Reading a parsed document *)

Definition typeof_object (j : json) : bool :=
  match j with
  | JNull | JArr _ | JObj _ => true
  | _ => false
  end.

Definition is_null (j : json) : bool :=
  match j with JNull => true | _ => false end.

(** [j.k]; [None] is [undefined]. *)
Definition get (j : json) (k : string) : option json :=
  match j with
  | JObj fs => assoc k fs
  | _ => None
  end.

(** [ToBoolean] *)
Definition truthy (o : option json) : bool :=
  match o with
  | None | Some JNull => false
  | Some (JBool b) => b
  | Some (JNum z) => negb (z =? 0)
  | Some (JStr s) => negb (String.eqb s "")
  | Some (JArr _) | Some (JObj _) => true
  end.

(** [(msg) => typeof msg === 'object' && msg.role && msg.parts];
    reading a property of [null] throws. *)
Definition message_guard (msg : json) : outcome bool :=
  if typeof_object msg then
    if is_null msg then
      Throws (TypeError "Cannot read properties of null (reading 'role')")
    else Returns (truthy (get msg "role") && truthy (get msg "parts"))
  else Returns false.

(** [Array.prototype.every]: stops at the first element that fails. *)
Fixpoint every (f : json → outcome bool) (xs : list json) : outcome bool :=
  match xs with
  | [] => Returns true
  | x :: xs' =>
      match f x with
      | Returns true => every f xs'
      | Returns false => Returns false
      | Throws e => Throws e
      end
  end.

Definition isHistoryFileContent (content : json) : outcome bool :=
  if typeof_object content && negb (is_null content) then
    match get content "messageHistory" with
    | Some (JArr ms) => every message_guard ms
    | _ => Returns false
    end
  else Returns false.

(** The file system after [mkdir] has made the directories on the way to
    [p], and after a write of [c] at [p]. *)
Definition made (p : string) (σ : backing) : backing :=
  {| disk := mkdirs (Path.directories p) (disk σ);
     trace := trace σ ++ [Mkdir p];
     schedule := schedule σ |}.

Definition wrote (p : string) (c : content) (σ : backing) : backing :=
  {| disk := <[p := Regular c]> (disk σ);
     trace := trace σ ++ [WriteFile p];
     schedule := schedule σ |}.

(** [σ'] is [σ] but for the log and for what the disk holds at the paths
    [ps]. *)
Definition differ_at (ps : list string) (σ σ' : backing) : Prop :=
  schedule σ' = schedule σ ∧ ∀ q, q ∉ ps → disk σ' !! q = disk σ !! q.

(** *** The private methods *)

Definition ensureDirectoryExists (this : t) : M world unit :=
  try_catch (fs_mkdir (baseDir this))
    (λ error,
       throw (InternalError
                ("Failed to create directory " +:+ baseDir this +:+ ": "
                   +:+ error_message error) error)).

Definition getTaskFilePath (this : t) (taskId : string) : string :=
  let safeTaskId := Path.basename taskId in
  Path.join (baseDir this) (safeTaskId +:+ ".json").

Definition getHistoryFilePath (this : t) (taskId : string) : M world string :=
  let safeTaskId := Path.basename taskId in
  if negb (String.eqb safeTaskId taskId) || Path.includes ".." taskId then
    throw (InvalidParams ("Invalid Task ID format: " +:+ taskId))
  else mret (Path.join (baseDir this) (safeTaskId +:+ ".history.json")).

(** [null] ([JNull]) when the file does not exist. *)
Definition readJsonFile (filePath : string) : M world json :=
  try_catch (data ← fs_readFile filePath; JSON_parse data)
    (λ error,
       if decide (error_code error = Some "ENOENT") then mret JNull
       else throw (InternalError
                     ("Failed to read file " +:+ filePath +:+ ": "
                        +:+ error_message error) error)).

(** The [catch] block of [writeJsonFile]. *)
Definition write_failure {A} (filePath : string) (error : js_error) : M world A :=
  throw (InternalError
           ("Failed to write file " +:+ filePath +:+ ": " +:+ error_message error)
           error).

Definition writeJsonFile (this : t) (filePath : string) (data : jsval) : M world unit :=
  try_catch
    (ensureDirectoryExists this;;
     text ← JSON_stringify data;
     fs_writeFile filePath text)
    (write_failure filePath).

(** [writeJsonFile] in the two stretches that the event loop runs apart:
    up to the directory, which the call asks for before it returns its
    promise, and from the text on.  The [catch] block rethrows, so one
    stretch after the other is [writeJsonFile]. *)
Definition writeJsonFile_directory (this : t) (filePath : string) : M world unit :=
  try_catch (ensureDirectoryExists this) (write_failure filePath).

Definition writeJsonFile_text (filePath : string) (data : jsval) : M world unit :=
  try_catch (text ← JSON_stringify data; fs_writeFile filePath text)
            (write_failure filePath).

(** A write that can be made and that nobody waits for any more, as far
    as it has got.  The texts written here are those of objects, so a part
    of one that is not all of it does not parse. *)
Definition in_flight (g : progress) (filePath : string) (rest : M world unit)
    : M world unit :=
  match g with
  | Waiting => mret ()
  | Called => log (WriteFile filePath)
  | Opened raw => fs_writeFile filePath (Garbled raw)
  | Written => rest
  end.

(** Two writes, on different files, that run side by side to the first
    rejection.  When both are fulfilled there is none.  When one is
    rejected, the other is left in flight, as far as the event loop has
    let it get; when both are to fail, the one that is not the first has
    made its call or not.  The log lists the calls of the first write
    before those of the second. *)
Definition race (turn : turn) (p1 : string) (rest1 : M world unit)
    (p2 : string) (rest2 : M world unit) : M world unit :=
  λ w,
    let '(r1, w1) := rest1 w in
    let '(r2, w2) := rest2 w1 in
    match r1, r2 with
    | Returns _, Returns _ => (Returns (), w2)
    | Throws e1, Returns _ => (Throws e1, (in_flight (other turn) p2 rest2 w1).2)
    | Returns _, Throws e2 =>
        (Throws e2, (rest2 (in_flight (other turn) p1 rest1 w).2).2)
    | Throws e1, Throws e2 =>
        match second_first turn, other turn with
        | false, Waiting => (Throws e1, w1)
        | false, _ => (Throws e1, w2)
        | true, Waiting => (Throws e2, (rest2 w).2)
        | true, _ => (Throws e2, w2)
        end
    end.

(** [Promise.all([this.writeJsonFile(p1, v1), this.writeJsonFile(p2, v2)])].
    Both calls are made before either promise is waited for, so both have
    asked for the directory when the first text is written; then the two
    writes run side by side.  When both are fulfilled so is [Promise.all].
    When one is rejected, [Promise.all] is rejected at once with that
    error.  The world is the one at that rejection: what a write in flight
    does later is not part of the call. *)
Definition Promise_all (this : t) (p1 : string) (v1 : jsval) (p2 : string) (v2 : jsval)
    : M world unit :=
  d1 ← settle (writeJsonFile_directory this p1);
  d2 ← settle (writeJsonFile_directory this p2);
  σ ← get_backing;
  race (schedule σ (length (trace σ)))
    p1 (match d1 with Returns _ => writeJsonFile_text p1 v1 | Throws e => throw e end)
    p2 (match d2 with Returns _ => writeJsonFile_text p2 v2 | Throws e => throw e end).

(** *** The two files of a task *)

(** Where the metadata and the history of an accepted id are kept. *)
Definition task_path (this : t) (id : string) : string :=
  Path.join (baseDir this) (id +:+ ".json").

Definition history_path (this : t) (id : string) : string :=
  Path.join (baseDir this) (id +:+ ".history.json").

(** A file that is there and cannot be read or parsed. *)
Definition damaged (nd : node) : Prop :=
  match nd with
  | Dir => True
  | Regular (Garbled _) => True
  | Regular (Text _) => False
  | Blocked code => code ≠ "ENOENT"
  end.

(** The base directory can be made, or is there already: it has a name,
    and every entry on the way to it is absent or a directory. *)
Definition dir_usable (this : t) (σ : backing) : Prop :=
  baseDir this ≠ "" ∧
  Forall (λ k, disk σ !! k = None ∨ disk σ !! k = Some Dir)
         (Path.directories (baseDir this)).

(** A path that [fs.writeFile] can create or replace. *)
Definition writable (σ : backing) (p : string) : Prop :=
  match disk σ !! p with
  | None | Some (Regular _) => True
  | Some Dir | Some (Blocked _) => False
  end.

(** The history [load] takes from what the disk holds at the history
    path: the list under [messageHistory] when the file parses and passes
    [isHistoryFileContent], and the empty list in every other case. *)
Definition recovered_history (o : option node) : json :=
  match o with
  | Some (Regular (Text doc)) =>
      match isHistoryFileContent doc with
      | Returns true => default (JArr []) (get doc "messageHistory")
      | _ => JArr []
      end
  | _ => JArr []
  end.

(** What the disk holds for [taskId], as [load] reads it. *)
Inductive verdict : Type :=
  | Refused
  | NotFound
  | Broken
  | Found (task history : json).

Definition verdict_of (this : t) (taskId : string) (d : gmap string node) : verdict :=
  if valid_id taskId then
    match d !! task_path this taskId with
    | None => NotFound
    | Some (Regular (Text task)) =>
        if truthy (Some task)
        then Found task (recovered_history (d !! history_path this taskId))
        else NotFound
    | Some (Regular (Garbled _)) | Some Dir => Broken
    | Some (Blocked code) => if decide (code = "ENOENT") then NotFound else Broken
    end
  else Refused.

(** *** [load] and [save] *)

(** Both paths are computed first, so a refused id is refused before the
    metadata file is read.  The metadata is read outside any [try]; the
    history is read inside one, whose [catch] keeps the empty history. *)
Definition load (this : t) (taskId : string) : M world jsval :=
  let taskFilePath := getTaskFilePath this taskId in
  historyFilePath ← getHistoryFilePath this taskId;
  task ← readJsonFile taskFilePath;
  if negb (truthy (Some task)) then mret VNull
  else
    history ← try_catch
      (historyContent ← readJsonFile historyFilePath;
       ok ← lift_outcome (W := world) (isHistoryFileContent historyContent);
       if ok : bool
       then mret (M := M world) (default (JArr []) (get historyContent "messageHistory"))
       else mret (JArr []))
      (λ _, mret (JArr []));
    fresh_copy (JObj [("task", task); ("history", history)]).

(** [const {task, history} = data], the two paths, the directory, then the
    two writes of [Promise.all]. *)
Definition save (this : t) (data : jsval) : M world unit :=
  d ← props_of data;
  task ← prop "task" d;
  history ← prop "history" d;
  tps ← props_of task;
  id ← prop "id" tps ≫= string_of;
  let taskFilePath := getTaskFilePath this id in
  historyFilePath ← getHistoryFilePath this id;
  ensureDirectoryExists this;;
  wrapped ← alloc (OObject [("messageHistory", history)]);
  Promise_all this taskFilePath task historyFilePath wrapped.

End FileStore.

(** ** Values of the schema *)

(** Modelled from the spec: the declaration of [schema.Message] is not among
    the sources; the specification gives a message as a role, [user] or
    [agent], plus an ordered list of content parts. *)
Definition is_message (m : json) : bool :=
  match m with
  | JObj fs =>
      match assoc "role" fs with
      | Some (JStr r) => String.eqb r "user" || String.eqb r "agent"
      | _ => false
      end &&
      match assoc "parts" fs with
      | Some (JArr _) => true
      | _ => false
      end
  | _ => false
  end.


(** The shape a history file is written in, [{messageHistory: Message[]}],
    with the schema's notion of a message. *)
Definition history_file_shape (doc : json) : bool :=
  match doc with
  | JObj fs =>
      match assoc "messageHistory" fs with
      | Some (JArr ms) => forallb is_message ms
      | _ => false
      end
  | _ => false
  end.

(** A history file that [load] sets aside: it cannot be read or parsed, or
    [isHistoryFileContent] does not accept what it holds. *)
Definition set_aside (nd : FileStore.node) : Prop :=
  match nd with
  | FileStore.Regular (FileStore.Text doc) =>
      FileStore.isHistoryFileContent doc ≠ Returns true
  | _ => True
  end.

#[global] Instance FileStore_TaskStore : TaskStore FileStore.t FileStore.backing := {
  save := FileStore.save;
  load := FileStore.load;
}.

(** ** Callers of a store *)

Section Callers.
Context {T S : Type} `{!TaskStore T S}.

(** A [TaskAndHistory] value for task [id], with one user message. *)
Definition sample (id text : string) : M (heap * S) jsval :=
  part ← alloc (OObject [("type", VStr "text"); ("text", VStr text)]);
  parts ← alloc (OArray [part]);
  message ← alloc (OObject [("role", VStr "user"); ("parts", parts)]);
  history ← alloc (OArray [message]);
  status ← alloc (OObject [("state", VStr "working")]);
  task ← alloc (OObject [("id", VStr id); ("status", status)]);
  alloc (OObject [("task", task); ("history", history)]).

Definition observe (v : jsval) : M (heap * S) (option (json * json)) :=
  h ← get_heap; mret (view 6 h v).

(** Loads a task, pushes a part onto the first message of the value it
    was handed, and loads the task again. *)
Definition mutate_loaded (store : T)
    : M (heap * S) (option (json * json) * option (json * json)) :=
  data ← sample "t1" "hello";
  save store data;;
  r1 ← load store "t1";
  before ← observe r1;
  history ← read r1 "history";
  message ← at_index history 0;
  parts ← read message "parts";
  extra ← alloc (OObject [("type", VStr "text"); ("text", VStr "injected")]);
  push parts extra;;
  r2 ← load store "t1";
  after ← observe r2;
  mret (before, after).

(** Saves a value, then changes the status of the task it passed in. *)
Definition mutate_saved (store : T)
    : M (heap * S) (option (json * json) * option (json * json)) :=
  data ← sample "t1" "hello";
  saved ← observe data;
  save store data;;
  task ← read data "task";
  status ← read task "status";
  assign status "state" (VStr "tampered");;
  r ← load store "t1";
  after ← observe r;
  mret (saved, after).





(** Loads [y] before and after a save of another task [x]. *)
Definition save_other (store : T) (y x : string)
    : M (heap * S) (option (json * json) * option (json * json)) :=
  dy ← sample y "hello";
  save store dy;;
  r1 ← load store y;
  before ← observe r1;
  dx ← sample x "other";
  save store dx;;
  r2 ← load store y;
  after ← observe r2;
  mret (before, after).
End Callers.

(** ** Worlds to run a store in *)

(** The store [new FileStore()], an empty disk, and the heap that holds
    one [TaskAndHistory] value for task [t1]. *)
Definition default_store : FileStore.t := FileStore.new None.

(** The event loop that lets a write in flight wait, and the first write
    fail first. *)
Definition in_order : nat → FileStore.turn :=
  λ _, FileStore.Turn false FileStore.Waiting.

Definition empty_disk : FileStore.backing := FileStore.Backing ∅ [] in_order.

Definition sample_heap : heap := (sample (S := unit) "t1" "hello" (∅, ())).2.1.

Definition sample_value : jsval := VRef 7%positive.

Definition sample_task : json :=
  JObj [("id", JStr "t1"); ("status", JObj [("state", JStr "working")])].

Definition sample_history : json :=
  JArr [JObj [("role", JStr "user");
              ("parts", JArr [JObj [("type", JStr "text"); ("text", JStr "hello")]])]].

(** The same value, for a task whose id is [id]. *)
Definition sample_heap_for (id : string) : heap :=
  (sample (S := unit) id "hello" (∅, ())).2.1.

(** A disk with the given files in the directory of [default_store]. *)
Definition disk_with (files : list (string * FileStore.node)) : FileStore.backing :=
  FileStore.Backing
    (list_to_map ((λ kv, (Path.join ".a2a-tasks" kv.1, kv.2)) <$> files)) [] in_order.

(** The same file system under another event loop. *)
Definition scheduled (s : nat → FileStore.turn) (σ : FileStore.backing)
    : FileStore.backing :=
  FileStore.Backing (FileStore.disk σ) (FileStore.trace σ) s.

(** A history file whose one entry is no message of the schema: its role
    is neither [user] nor [agent] and its parts are a number. *)
Definition stray_entry : json :=
  JObj [("role", JStr "robot"); ("parts", JNum 1)].

Definition stray_history_file : json :=
  JObj [("messageHistory", JArr [stray_entry])].

(** Loads a task and reports the two trees of the answer. *)
Definition load_and_observe (this : FileStore.t) (id : string)
    : M (heap * FileStore.backing) (option (json * json)) :=
  r ← load this id; observe r.

(** ** The research agent *)

(** [researcherAgent] of the researcher server: it turns the history of a
    task into chat messages, asks the language model and yields the
    updates of the task.  The history is the list a store returned, so its
    entries are JSON values; the model is a function [invoke] from the
    messages it is given to the [content] of each of [result.messages], or
    to the error it rejects with. *)
Module ResearcherAgent.

(** A chat message [{role, content}]; an entry of [content] is the [text]
    of a [{text: ...}] object, [None] for [undefined]. *)
Record chat_message : Type := ChatMessage {
  role : string;
  content : list (option json)
}.

(** An update [{state, message: {role: 'agent', parts: [{type: 'text',
    text}]}}]. *)
Record TaskYieldUpdate : Type := Update {
  state : string;
  text : option json
}.

Definition llm : Type := list chat_message → outcome (list (option json)).

(** [(p) => !!(p as schema.TextPart).text] *)
Definition has_text (p : json) : outcome bool :=
  if FileStore.is_null p then
    Throws (TypeError "Cannot read properties of null (reading 'text')")
  else Returns (FileStore.truthy (FileStore.get p "text")).

(** [Array.prototype.filter]: the callback runs on every element in
    order, and the first throw ends the call. *)
Fixpoint filter_parts (f : json → outcome bool) (ps : list json)
    : outcome (list json) :=
  match ps with
  | [] => Returns []
  | p :: ps' =>
      match f p with
      | Throws e => Throws e
      | Returns b =>
          match filter_parts f ps' with
          | Throws e => Throws e
          | Returns qs => Returns (if b then p :: qs else qs)
          end
      end
  end.

(** [m.role === 'agent' ? 'assistant' : 'user'] *)
Definition role_of (m : json) : string :=
  match FileStore.get m "role" with
  | Some (JStr r) => if String.eqb r "agent" then "assistant" else "user"
  | _ => "user"
  end.

(** The callback of the first [map]: [m.role] throws on [null], and
    [m.parts.filter] throws unless [m.parts] is an array. *)
Definition to_chat_message (m : json) : outcome chat_message :=
  if FileStore.is_null m then
    Throws (TypeError "Cannot read properties of null (reading 'role')")
  else
    match FileStore.get m "parts" with
    | Some (JArr ps) =>
        match filter_parts has_text ps with
        | Returns qs => Returns (ChatMessage (role_of m) ((λ p, FileStore.get p "text") <$> qs))
        | Throws e => Throws e
        end
    | None =>
        Throws (TypeError "Cannot read properties of undefined (reading 'filter')")
    | Some JNull =>
        Throws (TypeError "Cannot read properties of null (reading 'filter')")
    | Some _ => Throws (TypeError "m.parts.filter is not a function")
    end.

(** [Array.prototype.map] with a callback that can throw. *)
Fixpoint map_messages (ms : list json) : outcome (list chat_message) :=
  match ms with
  | [] => Returns []
  | m :: ms' =>
      match to_chat_message m with
      | Throws e => Throws e
      | Returns c =>
          match map_messages ms' with
          | Throws e => Throws e
          | Returns cs => Returns (c :: cs)
          end
      end
  end.

(** [(history ?? []).map(...).filter((m) => m.content.length > 0)] *)
Definition messages (history : option (list json)) : outcome (list chat_message) :=
  match map_messages (default [] history) with
  | Returns cs => Returns (filter (λ c, content c ≠ []) cs)
  | Throws e => Throws e
  end.

Definition failed : TaskYieldUpdate :=
  Update "failed" (Some (JStr "No input message found.")).

Definition working : TaskYieldUpdate :=
  Update "working" (Some (JStr "Researching...")).

Definition completed (answer : option json) : TaskYieldUpdate :=
  Update "completed" answer.

(** The generator driven to its end: the updates it yields, in order, and
    how it finishes. *)
Definition researcherAgent (invoke : llm) (history : option (list json))
    : list TaskYieldUpdate * outcome () :=
  match messages history with
  | Throws e => ([], Throws e)
  | Returns [] => ([failed], Returns ())
  | Returns (c :: cs) =>
      match invoke (c :: cs) with
      | Throws e => ([working], Throws e)
      | Returns result =>
          match last result with
          | Some answer => ([working; completed answer], Returns ())
          | None =>
              ([working],
               Throws (TypeError
                 "Cannot read properties of undefined (reading 'content')"))
          end
      end
  end.

(** The parts of a history entry that carry a text, as the agent reads
    them: those whose [text] is truthy. *)
Definition texts_of (m : json) : list (option json) :=
  match FileStore.get m "parts" with
  | Some (JArr ps) =>
      (λ p, FileStore.get p "text") <$> filter (λ p, FileStore.truthy (FileStore.get p "text") = true) ps
  | _ => []
  end.

(** The chat message of a history entry that can be converted. *)
Definition chat_of (m : json) : chat_message :=
  ChatMessage (role_of m) (texts_of m).

(** A history entry the agent can convert: not [null], with an array of
    parts none of which is [null]. *)
Definition convertible (m : json) : Prop :=
  m ≠ JNull ∧ ∃ ps, FileStore.get m "parts" = Some (JArr ps) ∧ Forall (λ p, p ≠ JNull) ps.

(** [m.parts] is no array, or an array that holds a [null]. *)
Definition unusable_parts (m : json) : bool :=
  match FileStore.get m "parts" with
  | Some (JArr ps) => existsb FileStore.is_null ps
  | _ => true
  end.

(** A message the model is ever given. *)
Definition well_formed (c : chat_message) : Prop :=
  (role c = "assistant" ∨ role c = "user") ∧
  content c ≠ [] ∧
  Forall (λ t, ∃ v, t = Some v ∧ FileStore.truthy (Some v) = true) (content c).

(** A model that answers with the texts it was given. *)
Definition echo : llm :=
  λ cs, Returns (concat (content <$> cs)).

(** A user message of one text part, and an agent message whose one part
    carries no text. *)
Definition text_message : json :=
  JObj [("role", JStr "user");
        ("parts", JArr [JObj [("type", JStr "text"); ("text", JStr "hello")]])].

Definition file_message : json :=
  JObj [("role", JStr "agent"); ("parts", JArr [JObj [("type", JStr "file")]])].

End ResearcherAgent.

(** * Properties *)

(** ** The heap: trees survive allocation *)

Section Heap.
Implicit Types (h : heap) (v : jsval) (t : json) (n : nat).

Lemma new_object_fresh o h l h' :
  new_object o h = (l, h') → h !! l = None ∧ h' = <[l := o]> h.
Proof.
  unfold new_object. intros [= <- <-]. split; [|done].
  apply not_elem_of_dom, is_fresh.
Qed.

Lemma new_object_subseteq o h l h' : new_object o h = (l, h') → h ⊆ h'.
Proof.
  intros [Hl ->]%new_object_fresh. by apply insert_subseteq.
Qed.

Lemma new_object_lookup o h l h' : new_object o h = (l, h') → h' !! l = Some o.
Proof. intros [_ ->]%new_object_fresh. apply lookup_insert_eq. Qed.

Lemma mapM_impl {A B} (f g : A → option B) (xs : list A) (ys : list B) :
  Forall (λ x, ∀ y, f x = Some y → g x = Some y) xs →
  mapM f xs = Some ys → mapM g xs = Some ys.
Proof.
  intros Hall Hf. apply mapM_Some. apply mapM_Some in Hf.
  induction Hf as [|x y xs ys Hxy _ IH]; [constructor|].
  inversion Hall; subst. constructor; auto.
Qed.

(** A tree read from a heap is read from every larger heap. *)
Lemma reify_weaken n h h' v t :
  h ⊆ h' → reify n h v = Some t → reify n h' v = Some t.
Proof.
  intros Hsub. revert v t.
  induction n as [|n IH]; intros [| | | |l| |] t; simpl; try done.
  destruct (h !! l) as [o|] eqn:Hl; [|done].
  rewrite (lookup_weaken _ _ _ _ Hl Hsub).
  destruct o as [ps|vs]; intros Ht.
  - destruct (mapM _ ps) as [fs|] eqn:Hps; [|done].
    erewrite mapM_impl; [exact Ht| |exact Hps].
    apply Forall_forall. intros [k v] _ y. simpl.
    destruct (reify n h v) eqn:Hv; [|done].
    by rewrite (IH _ _ Hv).
  - destruct (mapM _ vs) as [ts|] eqn:Hvs; [|done].
    erewrite mapM_impl; [exact Ht| |exact Hvs].
    apply Forall_forall. intros v _ y. apply IH.
Qed.

(** A longer walk finds the same tree. *)
Lemma reify_fuel_S n h v t : reify n h v = Some t → reify (S n) h v = Some t.
Proof.
  revert v t.
  induction n as [|n IH]; intros [| | | |l| |] t; try done.
  intros Ht. simpl in Ht. change (reify (S (S n)) h (VRef l)) with
    (match h !! l with
     | None => None
     | Some (OArray vs) => JArr <$> mapM (reify (S n) h) vs
     | Some (OObject ps) =>
         JObj <$> mapM (λ kv, pair kv.1 <$> reify (S n) h kv.2) ps
     end).
  destruct (h !! l) as [[ps|vs]|]; [| |done].
  - destruct (mapM _ ps) as [fs|] eqn:Hps; [|done].
    erewrite mapM_impl; [exact Ht| |exact Hps].
    apply Forall_forall. intros [k v] _ y. cbn [fst snd].
    destruct (reify n h v) eqn:Hv; [|done].
    by rewrite (IH _ _ Hv).
  - destruct (mapM _ vs) as [ts|] eqn:Hvs; [|done].
    erewrite mapM_impl; [exact Ht| |exact Hvs].
    apply Forall_forall. intros v _ y. apply IH.
Qed.

Lemma reify_fuel n m h v t :
  (n ≤ m)%nat → reify n h v = Some t → reify m h v = Some t.
Proof.
  induction 1 as [|m _ IH]; [done|]. intros Ht. by apply reify_fuel_S, IH.
Qed.

Lemma reify_agree n m h v t t' :
  reify n h v = Some t → reify m h v = Some t' → t = t'.
Proof.
  intros Hn Hm.
  apply (reify_fuel n (n `max` m)) in Hn; [|lia].
  apply (reify_fuel m (n `max` m)) in Hm; [|lia]. congruence.
Qed.

Lemma omap_id_Some {A} (xs : list A) : omap id (Some <$> xs) = xs.
Proof.
  induction xs as [|x xs IH]; [done|].
  change (x :: omap id (Some <$> xs) = x :: xs). by rewrite IH.
Qed.

(** [JSON.stringify] writes a value that is JSON data as the document it
    is. *)
Lemma reify_serialize n h v t : reify n h v = Some t → serialize n h v = Some (Some t).
Proof.
  revert v t.
  induction n as [|n IH]; intros [| | | |l| |] t; simpl;
    try (by intros [= <-]); try done.
  destruct (h !! l) as [[ps|vs]|]; [| |done].
  - destruct (mapM _ ps) as [fs|] eqn:Hps; intros [= <-].
    assert (mapM (λ kv, field kv.1 <$> serialize n h kv.2) ps = Some (Some <$> fs)) as ->.
    { apply mapM_Some. apply mapM_Some in Hps.
      induction Hps as [|[k v] kt ps fs Hkv _ IHps]; [constructor|].
      rewrite fmap_cons. constructor; [|done]. simpl in *.
      destruct (reify n h v) as [t|] eqn:Hv; simplify_eq/=.
      by rewrite (IH _ _ Hv). }
    simpl. by rewrite omap_id_Some.
  - destruct (mapM _ vs) as [ts|] eqn:Hvs; intros [= <-].
    assert (mapM (λ v, element <$> serialize n h v) vs = Some ts) as ->; [|done].
    apply mapM_Some. apply mapM_Some in Hvs.
    induction Hvs as [|v t vs ts Hvt _ IHvs]; [constructor|].
    constructor; [|done]. by rewrite (IH _ _ Hvt).
Qed.

Lemma serialize_weaken n h h' v o :
  h ⊆ h' → serialize n h v = Some o → serialize n h' v = Some o.
Proof.
  intros Hsub. revert v o.
  induction n as [|n IH]; intros [| | | |l| |] o; simpl; try done.
  destruct (h !! l) as [ob|] eqn:Hl; [|done].
  rewrite (lookup_weaken _ _ _ _ Hl Hsub).
  destruct ob as [ps|vs]; intros Ho.
  - destruct (mapM _ ps) as [fs|] eqn:Hps; [|done].
    erewrite mapM_impl; [exact Ho| |exact Hps].
    apply Forall_forall. intros [k v] _ y. simpl.
    destruct (serialize n h v) eqn:Hv; [|done].
    by rewrite (IH _ _ Hv).
  - destruct (mapM _ vs) as [ts|] eqn:Hvs; [|done].
    erewrite mapM_impl; [exact Ho| |exact Hvs].
    apply Forall_forall. intros v _ y.
    destruct (serialize n h v) eqn:Hv; [|done].
    by rewrite (IH _ _ Hv).
Qed.

Lemma serialize_fuel_S n h v o : serialize n h v = Some o → serialize (S n) h v = Some o.
Proof.
  revert v o.
  induction n as [|n IH]; intros [| | | |l| |] o; try done.
  intros Ho. simpl in Ho. change (serialize (S (S n)) h (VRef l)) with
    (match h !! l with
     | None => None
     | Some (OArray vs) =>
         ts ← mapM (λ v, element <$> serialize (S n) h v) vs; Some (Some (JArr ts))
     | Some (OObject ps) =>
         fs ← mapM (λ kv, field kv.1 <$> serialize (S n) h kv.2) ps;
         Some (Some (JObj (omap id fs)))
     end).
  destruct (h !! l) as [[ps|vs]|]; [| |done].
  - destruct (mapM _ ps) as [fs|] eqn:Hps; [|done].
    erewrite mapM_impl; [exact Ho| |exact Hps].
    apply Forall_forall. intros [k v] _ y. cbn [fst snd].
    destruct (serialize n h v) eqn:Hv; [|done].
    by rewrite (IH _ _ Hv).
  - destruct (mapM _ vs) as [ts|] eqn:Hvs; [|done].
    erewrite mapM_impl; [exact Ho| |exact Hvs].
    apply Forall_forall. intros v _ y.
    destruct (serialize n h v) eqn:Hv; [|done].
    by rewrite (IH _ _ Hv).
Qed.

Lemma serialize_fuel n m h v o :
  (n ≤ m)%nat → serialize n h v = Some o → serialize m h v = Some o.
Proof.
  induction 1 as [|m _ IH]; [done|]. intros Ho. by apply serialize_fuel_S, IH.
Qed.

(** However long the walk, the text of a value that is JSON data is that
    of its document. *)
Lemma serialize_reify n m h v t o :
  reify n h v = Some t → serialize m h v = Some o → o = Some t.
Proof.
  intros Hn%reify_serialize Hm.
  apply (serialize_fuel n (n `max` m)) in Hn; [|lia].
  apply (serialize_fuel m (n `max` m)) in Hm; [|lia]. congruence.
Qed.
End Heap.

Section Materialize.
Implicit Types (h : heap) (v : jsval) (t : json) (n : nat).



Lemma depth_items_inv (ts : list json) n :
  (foldr (λ t d, depth t `max` d) O ts ≤ n)%nat →
  Forall (λ t, (depth t ≤ n)%nat) ts.
Proof.
  induction ts as [|t ts IH]; simpl; intros; constructor; [lia|apply IH; lia].
Qed.

Lemma depth_fields_inv (fs : list (string * json)) n :
  (foldr (λ kt d, depth kt.2 `max` d) O fs ≤ n)%nat →
  Forall (λ kt, (depth kt.2 ≤ n)%nat) fs.
Proof.
  induction fs as [|t ts IH]; simpl; intros; constructor; [lia|apply IH; lia].
Qed.


(** [thread] over a list whose elements are allocated correctly. *)
Lemma thread_spec {A B} (f : A → heap → B * heap) (r : nat → heap → B → option A)
    (xs : list A) (P : A → nat → Prop) :
  (∀ n h h' y a, h ⊆ h' → r n h y = Some a → r n h' y = Some a) →
  Forall (λ x, ∀ h y h', f x h = (y, h') →
                 h ⊆ h' ∧ ∀ n, P x n → r n h' y = Some x) xs →
  ∀ h ys h', thread f xs h = (ys, h') →
    h ⊆ h' ∧ ∀ n, Forall (λ x, P x n) xs → mapM (r n h') ys = Some xs.
Proof.
  intros Hmono. induction 1 as [|x xs Hx _ IH]; intros h ys h'; simpl.
  { intros [= <- <-]. done. }
  destruct (f x h) as [y h1] eqn:Hf.
  destruct (thread f xs h1) as [ys' h2] eqn:Hth.
  intros [= <- <-].
  destruct (Hx _ _ _ Hf) as [Hsub1 Hy].
  destruct (IH _ _ _ Hth) as [Hsub2 Hys].
  split; [by etrans|].
  intros n Hall. inversion Hall; subst.
  apply mapM_Some. constructor.
  - eapply Hmono; [exact Hsub2|]. by apply Hy.
  - apply mapM_Some. by apply Hys.
Qed.

(** The objects built for a document carry exactly that document, and
    nothing that was in the heap before is touched. *)
Lemma materialize_spec t :
  ∀ h v h', materialize t h = (v, h') →
    h ⊆ h' ∧ ∀ n, (depth t ≤ n)%nat → reify n h' v = Some t.
Proof.
  induction t as [|b|z|s|ts IH|fs IH] using json_ind; intros h v h';
    try (simpl; intros [= <- <-]; split; [done|by intros []]).
  - cbn [materialize]. destruct (thread materialize ts h) as [vs h1] eqn:Hth.
    destruct (new_object (OArray vs) h1) as [l h2] eqn:Hnew.
    intros [= <- <-].
    destruct (thread_spec materialize reify ts (λ t n, (depth t ≤ n)%nat)
                (λ n h h' y a, reify_weaken n h h' y a) IH _ _ _ Hth)
      as [Hsub Hvs].
    pose proof (new_object_subseteq _ _ _ _ Hnew) as Hsub2.
    split; [by etrans|].
    intros [|n] Hn; simpl in Hn; [lia|]. simpl.
    rewrite (new_object_lookup _ _ _ _ Hnew).
    erewrite mapM_impl; [done| |apply (Hvs n), depth_items_inv; lia].
    apply Forall_forall. intros x _ y. by apply reify_weaken.
  - cbn [materialize].
    destruct (thread _ fs h) as [ps h1] eqn:Hth.
    destruct (new_object (OObject ps) h1) as [l h2] eqn:Hnew.
    intros [= <- <-].
    destruct (thread_spec
                (λ kt h, let '(v, h1) := materialize kt.2 h in ((kt.1, v), h1))
                (λ n h kv, pair kv.1 <$> reify n h kv.2) fs
                (λ kt n, (depth kt.2 ≤ n)%nat)) with (h := h) (ys := ps) (h' := h1)
      as [Hsub Hps]; [| |done|].
    { intros n h0 h0' [k v0] a Hsub. simpl.
      destruct (reify n h0 v0) eqn:Hv; [|done].
      by rewrite (reify_weaken _ _ _ _ _ Hsub Hv). }
    { eapply Forall_impl; [exact IH|]. intros [k t] Ht h0 y h0'. simpl.
      destruct (materialize t h0) as [v0 h01] eqn:Hm. intros [= <- <-].
      destruct (Ht _ _ _ Hm) as [? Hr]. split; [done|].
      intros n Hn. simpl. by rewrite Hr. }
    pose proof (new_object_subseteq _ _ _ _ Hnew) as Hsub2.
    split; [by etrans|].
    intros [|n] Hn; simpl in Hn; [lia|]. simpl.
    rewrite (new_object_lookup _ _ _ _ Hnew).
    erewrite mapM_impl; [done| |apply (Hps n), depth_fields_inv; lia].
    apply Forall_forall. intros [k x] _ y. simpl.
    destruct (reify n h1 x) eqn:Hx; [|done].
    by rewrite (reify_weaken _ _ _ _ _ Hsub2 Hx).
Qed.
End Materialize.

(** ** Reading a tree back into the shape of the heap *)

Section Inversion.
Implicit Types (h : heap) (v : jsval) (t : json) (n : nat).

Lemma reify_ref_same n h l l' :
  h !! l = h !! l' → reify n h (VRef l) = reify n h (VRef l').
Proof. destruct n; simpl; [done|]. by intros ->. Qed.

Lemma reify_str_inv n h v s : reify n h v = Some (JStr s) → v = VStr s.
Proof.
  destruct n as [|n'], v as [| | | |l| |]; simpl; try (by intros [= <-]); try done.
  destruct (h !! l) as [[ps|vs]|]; [| |done].
  - by destruct (mapM _ ps).
  - by destruct (mapM _ vs).
Qed.

Lemma reify_obj_inv n h v fs :
  reify n h v = Some (JObj fs) →
  ∃ l n' ps, v = VRef l ∧ n = S n' ∧ h !! l = Some (OObject ps) ∧
             mapM (λ kv, pair kv.1 <$> reify n' h kv.2) ps = Some fs.
Proof.
  destruct n as [|n'], v as [| | | |l| |]; simpl; try done.
  destruct (h !! l) as [[ps|vs]|] eqn:Hl; [| |done].
  - destruct (mapM _ ps) as [fs'|] eqn:Hps; intros [= <-]. by exists l, n', ps.
  - by destruct (mapM _ vs).
Qed.

Lemma reify_arr_inv n h v ts :
  reify n h v = Some (JArr ts) →
  ∃ l n' vs, v = VRef l ∧ n = S n' ∧ h !! l = Some (OArray vs) ∧
             mapM (reify n' h) vs = Some ts.
Proof.
  destruct n as [|n'], v as [| | | |l| |]; simpl; try done.
  destruct (h !! l) as [[ps|vs]|] eqn:Hl; [| |done].
  - by destruct (mapM _ ps).
  - destruct (mapM _ vs) as [ts'|] eqn:Hvs; intros [= <-]. by exists l, n', vs.
Qed.

(** A property of the tree is a property of the object. *)
Lemma assoc_reify n h ps fs k j :
  mapM (λ kv, pair kv.1 <$> reify n h kv.2) ps = Some fs →
  assoc k fs = Some j →
  ∃ v, assoc k ps = Some v ∧ reify n h v = Some j.
Proof.
  intros Hps%mapM_Some.
  induction Hps as [|[k1 v1] [k2 j2] ps fs Hkv _ IH]; simpl; [done|].
  simpl in Hkv. destruct (reify n h v1) as [j1|] eqn:Hv1; simplify_eq/=.
  destruct (String.eqb k k2); [|done]. intros [= <-]. eauto.
Qed.

(** The shape of a [TaskAndHistory] value whose halves have trees. *)
Lemma view_shape n h data tt th id :
  view n h data = Some (tt, th) → task_id tt = Some id →
  ∃ ld d lt tps hv,
    data = VRef ld ∧ h !! ld = Some (OObject d) ∧
    assoc "task" d = Some (VRef lt) ∧ h !! lt = Some (OObject tps) ∧
    assoc "id" tps = Some (VStr id) ∧ assoc "history" d = Some hv ∧
    reify n h (VRef lt) = Some tt ∧ reify n h hv = Some th.
Proof.
  unfold view. destruct data as [| | | |ld| |]; try done.
  destruct (h !! ld) as [[d|]|] eqn:Hld; try done.
  destruct (assoc "task" d) as [task|] eqn:Htask; [|done].
  destruct (assoc "history" d) as [history|] eqn:Hhist; [|done]. simpl.
  destruct (reify n h task) as [tt'|] eqn:Ht; [|done].
  destruct (reify n h history) as [th'|] eqn:Hh; [|done]. simpl.
  intros [= -> ->] Hid.
  destruct tt as [| | | | |fs]; try done. simpl in Hid.
  destruct (assoc "id" fs) as [[| | |s| |]|] eqn:Hfs; try done.
  injection Hid as ->.
  pose proof Ht as Ht'.
  apply reify_obj_inv in Ht as (lt & n' & tps & -> & -> & Hlt & Htps).
  destruct (assoc_reify _ _ _ _ _ _ Htps Hfs) as (v & Hv & Hs%reify_str_inv).
  subst v. by exists ld, d, lt, tps, history.
Qed.

Lemma view_intro n h l d task history tt th :
  h !! l = Some (OObject d) →
  assoc "task" d = Some task → assoc "history" d = Some history →
  reify n h task = Some tt → reify n h history = Some th →
  view n h (VRef l) = Some (tt, th).
Proof. intros Hl Ht Hh Hrt Hrh. unfold view. by rewrite Hl, Ht, Hh; simpl; rewrite Hrt, Hrh. Qed.

(** The trees of a value are read the same from every larger heap. *)
Lemma view_weaken n h h' data x :
  h ⊆ h' → view n h data = Some x → view n h' data = Some x.
Proof.
  intros Hsub. unfold view. destruct data as [| | | |l| |]; try done.
  destruct (h !! l) as [[d|]|] eqn:Hl; try done.
  rewrite (lookup_weaken _ _ _ _ Hl Hsub).
  destruct (assoc "task" d) as [task|]; [|done].
  destruct (assoc "history" d) as [hv|]; [|done]. simpl.
  destruct (reify n h task) as [tt|] eqn:Ht; [|done].
  destruct (reify n h hv) as [th|] eqn:Hh; [|done]. simpl.
  by rewrite (reify_weaken _ _ _ _ _ Hsub Ht), (reify_weaken _ _ _ _ _ Hsub Hh).
Qed.
End Inversion.

(** ** InMemoryTaskStore: what [save] and [load] build *)

Section InMemory.
Import InMemoryTaskStore.
Implicit Types (h : heap) (m : gmap string jsval) (n : nat).

Ltac step := unfold mbind, M_bind, mret, M_ret, throw, get_backing, set_backing,
               props_of, elems_of, prop, string_of, alloc; simpl.

(** Names the copy of the task, the copy of the history and the entry
    that holds them, in the order they are allocated. *)
Ltac three_objects h o1 o2 l1 h1 l2 h2 e h3 :=
  set (l1 := fresh (dom h));
  set (h1 := <[l1 := o1]> h);
  set (l2 := fresh (dom h1));
  set (h2 := <[l2 := o2]> h1);
  set (e := fresh (dom h2));
  set (h3 := <[e := OObject [("task", VRef l1); ("history", VRef l2)]]> h2);
  assert (h ⊆ h1 ∧ h1 ⊆ h2 ∧ h2 ⊆ h3) as (Hsub1 & Hsub2 & Hsub3)
    by (split_and!; by eapply new_object_subseteq);
  assert (h ⊆ h3) as Hsub by (by etrans; [exact Hsub1|etrans]);
  pose proof (new_object_lookup o1 h l1 h1 eq_refl) as Hnew1;
  pose proof (new_object_lookup o2 h1 l2 h2 eq_refl) as Hnew2;
  pose proof (new_object_lookup _ h2 e h3 eq_refl) as Hnew3.

Lemma InMemory_save_spec h m ld d lt tps id lh hs :
  h !! ld = Some (OObject d) →
  assoc "task" d = Some (VRef lt) → h !! lt = Some (OObject tps) →
  assoc "id" tps = Some (VStr id) →
  assoc "history" d = Some (VRef lh) → h !! lh = Some (OArray hs) →
  ∃ h' e l1 l2,
    save (VRef ld) (h, m) = (Returns (), (h', <[id := VRef e]> m)) ∧ h ⊆ h' ∧
    h' !! e = Some (OObject [("task", VRef l1); ("history", VRef l2)]) ∧
    h' !! l1 = Some (OObject tps) ∧ h' !! l2 = Some (OArray hs).
Proof.
  intros Hld Htask Hlt Hid Hhist Hlh.
  unfold save. step. rewrite Hld. step. rewrite Htask. step. rewrite Hlt. step.
  rewrite Hid. step. rewrite Hhist. step. rewrite Hlh. step.
  three_objects h (OObject tps) (OArray hs) l1 h1 l2 h2 e h3.
  exists h3, e, l1, l2.
  split_and!; [done..|by eapply lookup_weaken; [|etrans]|by eapply lookup_weaken].
Qed.

Lemma InMemory_load_spec h m id e d l1 l2 tps hs :
  m !! id = Some (VRef e) → h !! e = Some (OObject d) →
  assoc "task" d = Some (VRef l1) → assoc "history" d = Some (VRef l2) →
  h !! l1 = Some (OObject tps) → h !! l2 = Some (OArray hs) →
  ∃ h' r l1' l2',
    load id (h, m) = (Returns (VRef r), (h', m)) ∧ h ⊆ h' ∧
    h' !! r = Some (OObject [("task", VRef l1'); ("history", VRef l2')]) ∧
    h' !! l1' = Some (OObject tps) ∧ h' !! l2' = Some (OArray hs).
Proof.
  intros Hm He Htask Hhist Hl1 Hl2.
  unfold load. step. rewrite Hm. step. rewrite He. step. rewrite Htask. step.
  rewrite Hhist. step. rewrite Hl1. step. rewrite Hl2. step.
  three_objects h (OObject tps) (OArray hs) l1' h1 l2' h2 r h3.
  exists h3, r, l1', l2'.
  split_and!; [done..|by eapply lookup_weaken; [|etrans]|by eapply lookup_weaken].
Qed.

Lemma InMemory_load_absent h m id : m !! id = None → load id (h, m) = (Returns VNull, (h, m)).
Proof. intros Hm. unfold load. step. by rewrite Hm. Qed.
End InMemory.

Section InMemoryRoundTrip.
Implicit Types (h : heap) (m : gmap string jsval) (n : nat).

End InMemoryRoundTrip.

(** ** Strings *)

Section Strings.
Implicit Types (s a b c : string).

Lemma string_app_nil_r s : s +:+ "" = s.
Proof.
  induction s as [|x s IH]; [done|].
  change (String x (s +:+ "") = String x s). by rewrite IH.
Qed.

Lemma string_app_assoc a b c : (a +:+ b) +:+ c = a +:+ b +:+ c.
Proof.
  induction a as [|x a IH]; [done|].
  change (String x ((a +:+ b) +:+ c) = String x (a +:+ b +:+ c)). by rewrite IH.
Qed.

Lemma string_length_app a b : String.length (a +:+ b) = (String.length a + String.length b)%nat.
Proof.
  induction a as [|x a IH]; [done|].
  change (S (String.length (a +:+ b)) = S (String.length a + String.length b)).
  by rewrite IH.
Qed.

(** A common suffix cancels. *)
Lemma string_app_inj_r a b s : a +:+ s = b +:+ s → a = b.
Proof.
  revert b. induction a as [|x a IH]; intros [|y b] H; [done| | |].
  - apply (f_equal String.length) in H.
    change (String.length s = S (String.length (b +:+ s))) in H.
    rewrite string_length_app in H. lia.
  - apply (f_equal String.length) in H.
    change (S (String.length (a +:+ s)) = String.length s) in H.
    rewrite string_length_app in H. lia.
  - change (String x (a +:+ s) = String y (b +:+ s)) in H.
    injection H as -> H. f_equal. by apply IH.
Qed.

Lemma string_app_ne_self a s : s ≠ "" → a ≠ a +:+ s.
Proof.
  intros Hs H. rewrite <-(string_app_nil_r a) in H at 1.
  by apply (inj (String.app a)) in H.
Qed.

Lemma has_sep_app a b : Path.has_sep (a +:+ b) = Path.has_sep a || Path.has_sep b.
Proof.
  induction a as [|x a IH]; [done|].
  change (Path.has_sep (String x (a +:+ b))
          = Path.has_sep (String x a) || Path.has_sep b).
  simpl. by rewrite IH, orb_assoc.
Qed.

Lemma valid_id_spec id :
  valid_id id = true ↔ Path.basename id = id ∧ Path.includes ".." id = false.
Proof.
  unfold valid_id. rewrite andb_true_iff, negb_true_iff, String.eqb_eq. done.
Qed.

Lemma invalid_id_spec id :
  valid_id id = false ↔ Path.basename id ≠ id ∨ Path.includes ".." id = true.
Proof.
  unfold valid_id. rewrite andb_false_iff, negb_false_iff, String.eqb_neq. done.
Qed.

Lemma rejected_valid id :
  negb (String.eqb (Path.basename id) id) || Path.includes ".." id = negb (valid_id id).
Proof. unfold valid_id. by rewrite negb_andb, negb_involutive. Qed.
End Strings.

(** ** The final path segment *)

Section Basename.
Implicit Types (s r a b c acc : string).

Lemma rev_app_rev_app a b c :
  String.rev_app (String.rev_app a b) c = String.rev_app b (a +:+ c).
Proof.
  revert b c. induction a as [|x a IH]; intros b c; [done|].
  change (String.rev_app (String.rev_app a (String x b)) c
          = String.rev_app b (String x (a +:+ c))).
  by rewrite IH.
Qed.

Lemma rev_involutive s : String.rev (String.rev s) = s.
Proof. unfold String.rev. rewrite rev_app_rev_app. apply string_app_nil_r. Qed.

Lemma has_sep_rev_app a b :
  Path.has_sep (String.rev_app a b) = Path.has_sep a || Path.has_sep b.
Proof.
  revert b. induction a as [|x a IH]; intros b; [done|]. simpl.
  rewrite IH. simpl. destruct (Ascii.eqb x Path.sep), (Path.has_sep a); by simpl.
Qed.

Lemma has_sep_rev s : Path.has_sep (String.rev s) = Path.has_sep s.
Proof. unfold String.rev. rewrite has_sep_rev_app. simpl. by rewrite orb_false_r. Qed.

Lemma skip_seps_no_sep r : Path.has_sep r = false → Path.skip_seps r = r.
Proof. destruct r as [|x r]; [done|]. simpl. by destruct (Ascii.eqb x Path.sep). Qed.

Lemma take_segment_no_sep r acc :
  Path.has_sep r = false → Path.take_segment r acc = String.rev_app r acc.
Proof.
  revert acc. induction r as [|x r IH]; intros acc; [done|]. simpl.
  destruct (Ascii.eqb x Path.sep); [done|]. simpl. apply IH.
Qed.

Lemma has_sep_take_segment r acc :
  Path.has_sep (Path.take_segment r acc) = Path.has_sep acc.
Proof.
  revert acc. induction r as [|x r IH]; intros acc; [done|]. simpl.
  destruct (Ascii.eqb x Path.sep) eqn:Hx; [done|]. rewrite IH. simpl. by rewrite Hx.
Qed.

Lemma has_sep_basename s : Path.has_sep (Path.basename s) = false.
Proof. unfold Path.basename. by rewrite has_sep_take_segment. Qed.

(** A string is its own final path segment exactly when it holds no
    separator. *)
Lemma basename_fixed s : Path.basename s = s ↔ Path.has_sep s = false.
Proof.
  split.
  - intros <-. apply has_sep_basename.
  - intros Hs. unfold Path.basename.
    assert (Path.has_sep (String.rev s) = false) as Hr by by rewrite has_sep_rev.
    rewrite (skip_seps_no_sep _ Hr), (take_segment_no_sep _ _ Hr).
    apply rev_involutive.
Qed.

(** The accepted ids: no separator and no [..]. *)
Lemma valid_id_no_sep id :
  valid_id id = true ↔ Path.has_sep id = false ∧ Path.includes ".." id = false.
Proof. by rewrite valid_id_spec, basename_fixed. Qed.
End Basename.

(** ** Paths in normal form *)

Section Normalize.
Implicit Types (s a b c name dir : string) (segs kept : list string).

#[local] Arguments String.app !_ _ / : simpl nomatch.

(** [path.normalize], [path.join] and the directories of a recursive
    [mkdir] on some paths, as Node answers on them. *)
Lemma normalize_examples :
  Path.normalize "./" = "./" ∧ Path.normalize "/.." = "/" ∧
  Path.normalize "a/.." = "." ∧ Path.normalize "../../a/" = "../../a/" ∧
  Path.normalize "a//b/./c" = "a/b/c" ∧ Path.normalize "/a/../../b" = "/b".
Proof. split_and!; vm_compute; reflexivity. Qed.

Lemma join_examples :
  Path.join "data/" "t1.json" = "data/t1.json" ∧
  Path.join "./data" "t1.json" = "data/t1.json" ∧
  Path.join "." "t1.json" = "t1.json" ∧
  Path.join "a/../b" "t1.json" = "b/t1.json" ∧
  Path.join "/" "t1.json" = "/t1.json" ∧
  Path.join ".." "t1.json" = "../t1.json" ∧
  Path.join ".a2a-tasks" "x/../t1.json" = ".a2a-tasks/t1.json".
Proof. split_and!; vm_compute; reflexivity. Qed.

Lemma directories_examples :
  Path.directories ".a2a-tasks" = [".a2a-tasks"] ∧
  Path.directories "a/b" = ["a"; "a/b"] ∧
  Path.directories "./data/" = ["data"] ∧
  Path.directories "/var/x/../tasks" = ["/var"; "/var/tasks"] ∧
  Path.directories "../a" = ["../a"] ∧
  Path.directories "." = [] ∧ Path.directories "/" = [].
Proof. split_and!; vm_compute; reflexivity. Qed.

Lemma string_app_inj_l a s1 s2 : a +:+ s1 = a +:+ s2 → s1 = s2.
Proof. induction a as [|x a IH]; [done|]. simpl. intros [= H]. auto. Qed.

Lemma split_ne_nil s : Path.split s ≠ [].
Proof.
  induction s as [|c s IH]; [done|]. simpl.
  destruct (Ascii.eqb c Path.sep); [done|]. by destruct (Path.split s).
Qed.

Lemma split_no_sep s : Path.has_sep s = false → Path.split s = [s].
Proof.
  induction s as [|c s IH]; [done|]. simpl.
  destruct (Ascii.eqb c Path.sep); [done|]. simpl. intros H. by rewrite (IH H).
Qed.

Lemma split_app_sep a b :
  Path.split (a +:+ String Path.sep b) = Path.split a ++ Path.split b.
Proof.
  induction a as [|c a IH]; [done|].
  change (String c a +:+ String Path.sep b) with (String c (a +:+ String Path.sep b)).
  simpl. destruct (Ascii.eqb c Path.sep); [by rewrite IH|].
  rewrite IH.
  pose proof (split_ne_nil a). by destruct (Path.split a).
Qed.

Lemma plain_spec name :
  Path.plain name = true ↔
  Path.has_sep name = false ∧ name ≠ "" ∧ name ≠ "." ∧ name ≠ "..".
Proof.
  unfold Path.plain. rewrite !andb_true_iff, !negb_true_iff.
  rewrite !String.eqb_neq. tauto.
Qed.

Lemma push_plain allow kept name :
  Path.plain name = true → Path.push allow kept name = name :: kept.
Proof.
  intros (_ & H1 & H2 & H3)%plain_spec. unfold Path.push.
  apply String.eqb_neq in H1, H2, H3. by rewrite H1, H2, H3.
Qed.

Lemma is_absolute_app dir s : dir ≠ "" → Path.is_absolute (dir +:+ s) = Path.is_absolute dir.
Proof. by destruct dir. Qed.

Lemma ends_with_sep_app a name :
  name ≠ "" → Path.ends_with_sep (a +:+ name) = Path.ends_with_sep name.
Proof.
  intros Hne. induction a as [|c a IH]; [done|].
  change (String c a +:+ name) with (String c (a +:+ name)).
  simpl. rewrite IH. destruct (a +:+ name) eqn:Heq; [|done].
  by destruct a, name.
Qed.

Lemma ends_with_sep_no_sep s : Path.has_sep s = false → Path.ends_with_sep s = false.
Proof.
  induction s as [|c s IH]; [done|]. simpl.
  intros [Hc Hs]%orb_false_iff. destruct s; [done|]. by apply IH.
Qed.

Lemma concat_snoc segs name :
  String.concat "/" (segs ++ [name]) =
    match segs with
    | [] => name
    | _ => String.concat "/" segs +:+ "/" +:+ name
    end.
Proof.
  induction segs as [|x segs IH]; [done|].
  change ((x :: segs) ++ [name]) with (x :: (segs ++ [name])).
  destruct segs as [|y segs]; [done|].
  change (String.concat "/" (x :: (y :: segs) ++ [name]))
    with (x +:+ "/" +:+ String.concat "/" ((y :: segs) ++ [name])).
  rewrite IH.
  change (String.concat "/" (x :: y :: segs))
    with (x +:+ "/" +:+ String.concat "/" (y :: segs)).
  by rewrite !string_app_assoc.
Qed.

Lemma segments_join dir name :
  dir ≠ "" → Path.plain name = true →
  Path.segments (dir +:+ "/" +:+ name) = Path.segments dir ++ [name].
Proof.
  intros Hdir Hname. unfold Path.segments.
  rewrite (is_absolute_app _ _ Hdir).
  change (dir +:+ "/" +:+ name) with (dir +:+ String Path.sep name).
  rewrite split_app_sep, foldl_app.
  apply plain_spec in Hname as Hn. destruct Hn as (Hsep & _).
  rewrite (split_no_sep _ Hsep). simpl. by rewrite push_plain.
Qed.

Lemma segments_plain name : Path.plain name = true → Path.segments name = [name].
Proof.
  intros Hname. unfold Path.segments.
  apply plain_spec in Hname as Hn. destruct Hn as (Hsep & _).
  rewrite (split_no_sep _ Hsep). simpl. by rewrite push_plain.
Qed.

(** [path.join] puts a plain segment after what it makes of the
    directory. *)
Lemma join_plain dir name :
  Path.plain name = true → Path.join dir name = Path.stem dir +:+ name.
Proof.
  intros Hname. apply plain_spec in Hname as Hn. destruct Hn as (Hsep & Hne & _).
  unfold Path.join, Path.stem.
  destruct (String.eqb dir "") eqn:Hdir.
  - apply String.eqb_neq in Hne. rewrite Hne. unfold Path.normalize. rewrite Hne.
    rewrite (segments_plain _ Hname). unfold Path.root.
    assert (Path.is_absolute name = false) as ->.
    { destruct name as [|c name]; [done|]. simpl in *. by apply orb_false_iff in Hsep as [-> _]. }
    rewrite (ends_with_sep_no_sep _ Hsep). simpl. by rewrite string_app_nil_r.
  - apply String.eqb_neq in Hdir.
    apply String.eqb_neq in Hne as Hne'. rewrite Hne'.
    unfold Path.normalize.
    assert (String.eqb (dir +:+ "/" +:+ name) "" = false) as ->.
    { apply String.eqb_neq. by destruct dir. }
    rewrite (segments_join _ _ Hdir Hname).
    unfold Path.root. rewrite (is_absolute_app _ _ Hdir).
    change (dir +:+ "/" +:+ name) with (dir +:+ String Path.sep name).
    assert (Path.ends_with_sep (dir +:+ String Path.sep name) = false) as ->.
    { change (dir +:+ String Path.sep name) with (dir +:+ ("/" +:+ name)).
      by rewrite <-string_app_assoc, (ends_with_sep_app _ _ Hne), (ends_with_sep_no_sep _ Hsep). }
    destruct (Path.segments dir ++ [name]) as [|y ys] eqn:Heq.
    { by destruct (Path.segments dir). }
    rewrite <-Heq, concat_snoc. clear Heq.
    rewrite string_app_assoc.
    destruct (Path.segments dir); by rewrite ?string_app_assoc, ?string_app_nil_r.
Qed.

Lemma join_inj dir a b :
  Path.plain a = true → Path.plain b = true →
  Path.join dir a = Path.join dir b → a = b.
Proof.
  intros Ha Hb. rewrite !join_plain by done. apply string_app_inj_l.
Qed.

Lemma concat_take_length k segs :
  (String.length (String.concat "/" (take k segs))
   ≤ String.length (String.concat "/" segs))%nat.
Proof.
  revert k. induction segs as [|x segs IH]; intros [|k]; simpl; try lia.
  destruct segs as [|y segs].
  { by rewrite take_nil. }
  specialize (IH k).
  destruct (take k (y :: segs)) as [|z zs] eqn:Htake.
  - rewrite !string_length_app. lia.
  - rewrite !string_length_app. simpl in *. lia.
Qed.

(** A file that [join] names in a directory is none of the directories on
    the way to it. *)
Lemma join_not_directory dir name :
  Path.plain name = true → Path.join dir name ∉ Path.directories dir.
Proof.
  intros Hname. rewrite (join_plain _ _ Hname).
  apply plain_spec in Hname as (_ & Hne & _).
  unfold Path.directories. intros Hin.
  apply list_elem_of_omap in Hin as (k & Hkin & Hk). simpl in Hk.
  destruct (forallb _ _); [done|]. injection Hk as Hk.
  apply (f_equal String.length) in Hk.
  unfold Path.stem in Hk.
  pose proof (concat_take_length k (Path.segments dir)) as Hlen.
  assert (0 < String.length name)%nat by (destruct name; [done|simpl; lia]).
  destruct (String.eqb dir "") eqn:Hdir.
  - apply String.eqb_eq in Hdir. subst dir. by apply elem_of_nil in Hkin.
  - rewrite !string_length_app in Hk.
    destruct (Path.segments dir); rewrite ?string_length_app in Hk; simpl in *; lia.
Qed.

(** What [join] puts before a plain segment is the last of the
    directories on the way, when there is one, and a separator. *)
Lemma stem_last dir d :
  last (Path.directories dir) = Some d → Path.stem dir = d +:+ "/".
Proof.
  unfold Path.directories, Path.stem.
  destruct (String.eqb dir "") eqn:Hdir.
  { apply String.eqb_eq in Hdir. by subst dir. }
  destruct (Path.segments dir) as [|x segs] eqn:Hsegs; [done|].
  match goal with |- context [omap ?f _] => set (F := f) end.
  change (length (x :: segs)) with (S (length segs)).
  rewrite seq_S, omap_app.
  change (omap F [(1 + length segs)%nat])
    with (match F (S (length segs)) with Some y => [y] | None => [] end).
  destruct (F (S (length segs))) as [y|] eqn:HF.
  - rewrite last_snoc. intros [= <-]. unfold F in HF.
    rewrite take_ge in HF by (simpl; lia).
    destruct (forallb _ _); [done|]. injection HF as <-.
    by rewrite string_app_assoc.
  - rewrite app_nil_r. intros Hlast.
    apply last_Some_elem_of, list_elem_of_omap in Hlast as (k & Hk & Hsome).
    unfold F in HF, Hsome. rewrite take_ge in HF by (simpl; lia).
    destruct (forallb (String.eqb "..") (x :: segs)) eqn:Hall; [|done].
    assert (forallb (String.eqb "..") (take k (x :: segs)) = true) as Htake.
    { apply forallb_forall. intros z Hz. rewrite forallb_forall in Hall.
      apply Hall. apply list_elem_of_In in Hz. apply list_elem_of_In.
      by eapply (subseteq_take k). }
    by rewrite Htake in Hsome.
Qed.

Lemma rev_app_app a b c : String.rev_app (a +:+ b) c = String.rev_app b (String.rev_app a c).
Proof.
  revert c. induction a as [|x a IH]; intros c; [done|].
  change (String.rev_app (a +:+ b) (String x c)
          = String.rev_app b (String.rev_app a (String x c))).
  apply IH.
Qed.

Lemma take_segment_rev_app name rest acc :
  Path.has_sep name = false →
  Path.take_segment (String.rev_app name rest) acc = Path.take_segment rest (name +:+ acc).
Proof.
  revert rest acc. induction name as [|x name IH]; intros rest acc; [done|].
  simpl. intros [Hx Hname]%orb_false_iff.
  rewrite (IH _ _ Hname). simpl. by rewrite Hx.
Qed.

Lemma skip_seps_rev_app name rest :
  Path.has_sep name = false → name ≠ "" ∨ Path.skip_seps rest = rest →
  Path.skip_seps (String.rev_app name rest) = String.rev_app name rest.
Proof.
  revert rest. induction name as [|x name IH]; intros rest Hsep Hor.
  { by destruct Hor. }
  simpl in *. apply orb_false_iff in Hsep as [Hx Hname].
  apply (IH _ Hname). right. simpl. by rewrite Hx.
Qed.

(** The final segment of a path that ends in a plain segment. *)
Lemma basename_after_sep s name :
  Path.has_sep name = false → name ≠ "" →
  Path.basename (s +:+ "/" +:+ name) = name.
Proof.
  intros Hsep Hne. unfold Path.basename, String.rev.
  change (s +:+ "/" +:+ name) with (s +:+ String Path.sep name).
  rewrite rev_app_app. simpl.
  rewrite skip_seps_rev_app by auto.
  rewrite (take_segment_rev_app _ _ _ Hsep). simpl.
  apply string_app_nil_r.
Qed.

Lemma stem_shape dir : Path.stem dir = "" ∨ ∃ s, Path.stem dir = s +:+ "/".
Proof.
  unfold Path.stem, Path.root. destruct (String.eqb dir ""); [by left|].
  destruct (Path.segments dir) as [|x segs].
  - destruct (Path.is_absolute dir); [right; by exists ""|by left].
  - right. exists ((if Path.is_absolute dir then "/" else "")
                   +:+ String.concat "/" (x :: segs)).
    by rewrite string_app_assoc.
Qed.

Lemma basename_join dir name :
  Path.plain name = true → Path.basename (Path.join dir name) = name.
Proof.
  intros Hname. rewrite (join_plain _ _ Hname).
  apply plain_spec in Hname as (Hsep & Hne & _).
  destruct (stem_shape dir) as [->|[s ->]].
  - by apply basename_fixed.
  - rewrite string_app_assoc. by apply basename_after_sep.
Qed.

(** The name of a file of an accepted id is a plain segment. *)
Lemma file_name_plain id suffix :
  valid_id id = true → (2 < String.length suffix)%nat → Path.has_sep suffix = false →
  Path.plain (id +:+ suffix) = true.
Proof.
  intros [Hsep _]%valid_id_no_sep Hlen Hsuf. apply plain_spec.
  rewrite has_sep_app, Hsep, Hsuf.
  split_and!; [done|..]; intros H%(f_equal String.length);
    rewrite string_length_app in H; simpl in H; lia.
Qed.
End Normalize.

(** ** The two files of a task *)

Section Paths.
Import FileStore.
Context (this : FileStore.t).
Implicit Types (a b id : string).

Lemma getTaskFilePath_valid id :
  valid_id id = true → FileStore.getTaskFilePath this id = task_path this id.
Proof.
  intros [Hb _]%valid_id_spec. unfold FileStore.getTaskFilePath, task_path.
  by rewrite Hb.
Qed.

Lemma task_name_plain id : valid_id id = true → Path.plain (id +:+ ".json") = true.
Proof. intros Hv. apply file_name_plain; [done|simpl; lia|done]. Qed.

Lemma history_name_plain id :
  valid_id id = true → Path.plain (id +:+ ".history.json") = true.
Proof. intros Hv. apply file_name_plain; [done|simpl; lia|done]. Qed.

Lemma task_path_stem id :
  valid_id id = true →
  task_path this id = Path.stem (baseDir this) +:+ (id +:+ ".json").
Proof. intros Hv. by apply join_plain, task_name_plain. Qed.

Lemma history_path_stem id :
  valid_id id = true →
  history_path this id = Path.stem (baseDir this) +:+ (id +:+ ".history.json").
Proof. intros Hv. by apply join_plain, history_name_plain. Qed.

Lemma task_path_inj a b :
  valid_id a = true → valid_id b = true → task_path this a = task_path this b → a = b.
Proof.
  intros Ha Hb H%join_inj; [|by apply task_name_plain..].
  by apply string_app_inj_r in H.
Qed.

Lemma history_path_inj a b :
  valid_id a = true → valid_id b = true →
  history_path this a = history_path this b → a = b.
Proof.
  intros Ha Hb H%join_inj; [|by apply history_name_plain..].
  by apply string_app_inj_r in H.
Qed.

Lemma task_path_ne_history_path id :
  valid_id id = true → task_path this id ≠ history_path this id.
Proof.
  intros Hv H%join_inj; [|by apply task_name_plain|by apply history_name_plain].
  by apply (inj (String.app id)) in H.
Qed.

(** The one way the metadata file of a task is the history file of
    another. *)
Lemma task_path_history_path a b :
  valid_id a = true → valid_id b = true →
  task_path this a = history_path this b ↔ a = b +:+ ".history".
Proof.
  intros Ha Hb. unfold task_path, history_path. split.
  - intros H%join_inj; [|by apply task_name_plain|by apply history_name_plain].
    change ".history.json" with (".history" +:+ ".json") in H.
    rewrite <-string_app_assoc in H. by apply string_app_inj_r in H.
  - intros ->. by rewrite string_app_assoc.
Qed.

(** The files are none of the directories that [mkdir] makes. *)
Lemma task_path_not_directory id :
  valid_id id = true → task_path this id ∉ Path.directories (baseDir this).
Proof. intros Hv. by apply join_not_directory, task_name_plain. Qed.

Lemma history_path_not_directory id :
  valid_id id = true → history_path this id ∉ Path.directories (baseDir this).
Proof. intros Hv. by apply join_not_directory, history_name_plain. Qed.
End Paths.

(** ** FileStore: the private methods, one run at a time *)

Section FileStoreRuns.
Import FileStore.
Context (this : t).
Implicit Types (h : heap) (σ : backing) (n : nat) (p id : string).

Lemma getHistoryFilePath_valid id h σ :
  valid_id id = true →
  getHistoryFilePath this id (h, σ) = (Returns (history_path this id), (h, σ)).
Proof.
  intros Hv. unfold getHistoryFilePath. rewrite rejected_valid, Hv. simpl.
  apply valid_id_spec in Hv as [-> _]. done.
Qed.

Lemma getHistoryFilePath_invalid id h σ :
  valid_id id = false →
  getHistoryFilePath this id (h, σ) =
    (Throws (InvalidParams ("Invalid Task ID format: " +:+ id)), (h, σ)).
Proof. intros Hv. unfold getHistoryFilePath. by rewrite rejected_valid, Hv. Qed.

(** What reading a path yields, by what the disk holds there. *)
Lemma readJsonFile_absent p h σ :
  disk σ !! p = None →
  readJsonFile p (h, σ) = (Returns JNull, (h, logged (ReadFile p) σ)).
Proof.
  intros Hp. unfold readJsonFile, try_catch, fs_readFile, log, system_error.
  unfold mbind, M_bind, mret, M_ret, throw, get_backing, set_backing. simpl.
  by rewrite Hp.
Qed.

Lemma readJsonFile_text p doc h σ :
  disk σ !! p = Some (Regular (Text doc)) →
  readJsonFile p (h, σ) = (Returns doc, (h, logged (ReadFile p) σ)).
Proof.
  intros Hp. unfold readJsonFile, try_catch, fs_readFile, log, system_error.
  unfold mbind, M_bind, mret, M_ret, throw, get_backing, set_backing. simpl.
  by rewrite Hp.
Qed.

Lemma readJsonFile_damaged p nd h σ :
  disk σ !! p = Some nd → damaged nd →
  ∃ cause,
    readJsonFile p (h, σ) =
      (Throws (InternalError ("Failed to read file " +:+ p +:+ ": "
                                +:+ error_message cause) cause),
       (h, logged (ReadFile p) σ)).
Proof.
  intros Hp Hnd. unfold readJsonFile, try_catch, fs_readFile, log, system_error.
  unfold mbind, M_bind, mret, M_ret, throw, get_backing, set_backing. simpl.
  rewrite Hp. destruct nd as [|[doc|raw]|code]; simpl in *; try done.
  all: try (destruct (decide _) as [Heq|_]; [by simplify_eq/=|]).
  all: match goal with
       | |- ∃ _, (Throws (InternalError _ ?c), _) = _ => by exists c
       end.
Qed.

(** Reading never touches the heap or the disk; it adds one entry to the log. *)
Lemma readJsonFile_world p h σ :
  (readJsonFile p (h, σ)).2 = (h, logged (ReadFile p) σ).
Proof.
  unfold readJsonFile, try_catch, fs_readFile, log, system_error.
  unfold mbind, M_bind, mret, M_ret, throw, get_backing, set_backing. simpl.
  destruct (disk σ !! p) as [[|[doc|raw]|code]|]; simpl; try done.
  by destruct (decide _).
Qed.

Lemma readJsonFile_enoent p h σ :
  disk σ !! p = Some (Blocked "ENOENT") →
  readJsonFile p (h, σ) = (Returns JNull, (h, logged (ReadFile p) σ)).
Proof.
  intros Hp. unfold readJsonFile, try_catch, fs_readFile, log, system_error.
  unfold mbind, M_bind, mret, M_ret, throw, get_backing, set_backing. simpl.
  by rewrite Hp.
Qed.

Lemma node_cases (o : option node) :
  o = None ∨ o = Some (Blocked "ENOENT") ∨ (∃ doc, o = Some (Regular (Text doc))) ∨
  (∃ nd, o = Some nd ∧ damaged nd).
Proof.
  destruct o as [[|[doc|raw]|code]|]; eauto 6.
  - right. right. right. by exists Dir.
  - right. right. right. by exists (Regular (Garbled raw)).
  - destruct (decide (code = "ENOENT")) as [->|Hc]; [eauto|].
    right. right. right. by exists (Blocked code).
Qed.
End FileStoreRuns.

(** ** FileStore: [load] *)

Section FileStoreLoad.
Import FileStore.
Context (this : t).
Implicit Types (h : heap) (σ : backing) (n : nat) (p id : string).

#[local] Arguments truthy : simpl never.
#[local] Arguments materialize : simpl never.
#[local] Arguments isHistoryFileContent : simpl never.

Ltac run := unfold mbind, M_bind, mret, M_ret, throw, try_catch, lift_outcome,
              fresh_copy; simpl.

Lemma load_rejects id h σ :
  valid_id id = false →
  load this id (h, σ) =
    (Throws (InvalidParams ("Invalid Task ID format: " +:+ id)), (h, σ)).
Proof.
  intros Hv. unfold load. run. by rewrite (getHistoryFilePath_invalid _ _ _ _ Hv).
Qed.

Lemma load_absent id h σ :
  valid_id id = true → disk σ !! task_path this id = None →
  load this id (h, σ) = (Returns VNull, (h, logged (ReadFile (task_path this id)) σ)).
Proof.
  intros Hv Hp. unfold load. run.
  rewrite (getHistoryFilePath_valid _ _ _ _ Hv), (getTaskFilePath_valid _ _ Hv).
  by rewrite (readJsonFile_absent _ _ _ Hp).
Qed.

Lemma load_falsy id doc h σ :
  valid_id id = true → disk σ !! task_path this id = Some (Regular (Text doc)) →
  truthy (Some doc) = false →
  load this id (h, σ) = (Returns VNull, (h, logged (ReadFile (task_path this id)) σ)).
Proof.
  intros Hv Hp Hdoc. unfold load. run.
  rewrite (getHistoryFilePath_valid _ _ _ _ Hv), (getTaskFilePath_valid _ _ Hv).
  rewrite (readJsonFile_text _ _ _ _ Hp). by rewrite Hdoc.
Qed.

Lemma load_damaged id nd h σ :
  valid_id id = true → disk σ !! task_path this id = Some nd → damaged nd →
  ∃ cause,
    load this id (h, σ) =
      (Throws (InternalError ("Failed to read file " +:+ task_path this id +:+ ": "
                                +:+ error_message cause) cause),
       (h, logged (ReadFile (task_path this id)) σ)).
Proof.
  intros Hv Hp Hnd. unfold load. run.
  rewrite (getHistoryFilePath_valid _ _ _ _ Hv), (getTaskFilePath_valid _ _ Hv).
  destruct (readJsonFile_damaged _ _ h _ Hp Hnd) as [cause ->]. by exists cause.
Qed.

(** With a metadata file that parses to a truthy value, [load] always
    answers: it reads the history path once and builds fresh objects for
    the task and whatever history it recovered. *)
Lemma load_found id task h σ :
  valid_id id = true → disk σ !! task_path this id = Some (Regular (Text task)) →
  truthy (Some task) = true →
  load this id (h, σ) =
    let history := recovered_history (disk σ !! history_path this id) in
    let vh := materialize (JObj [("task", task); ("history", history)]) h in
    (Returns vh.1,
     (vh.2, logged (ReadFile (history_path this id))
              (logged (ReadFile (task_path this id)) σ))).
Proof.
  intros Hv Hp Hdoc. unfold load. run.
  rewrite (getHistoryFilePath_valid _ _ _ _ Hv), (getTaskFilePath_valid _ _ Hv).
  rewrite (readJsonFile_text _ _ _ _ Hp). rewrite Hdoc. simpl.
  set (σ1 := logged (ReadFile (task_path this id)) σ).
  assert (disk σ1 !! history_path this id = disk σ !! history_path this id) as Hd by done.
  unfold recovered_history.
  destruct (node_cases (disk σ !! history_path this id))
    as [Hh|[Hh|[[doc Hh]|(nd & Hh & Hnd)]]]; rewrite Hh in Hd |- *.
  - rewrite (readJsonFile_absent _ _ _ Hd). simpl.
    by destruct (materialize _ h).
  - rewrite (readJsonFile_enoent _ _ _ Hd). simpl.
    by destruct (materialize _ h).
  - rewrite (readJsonFile_text _ _ _ _ Hd).
    destruct (isHistoryFileContent doc) as [[|]|e]; simpl; by destruct (materialize _ h).
  - destruct (readJsonFile_damaged _ _ h _ Hd Hnd) as [cause ->].
    assert (JArr [] = match nd with
                      | Regular (Text doc) =>
                          match isHistoryFileContent doc with
                          | Returns true => default (JArr []) (get doc "messageHistory")
                          | _ => JArr []
                          end
                      | _ => JArr []
                      end) as <-.
    { by destruct nd as [|[]|]. }
    by destruct (materialize _ h).
Qed.

(** The wrapper built for a task and a history shows exactly those two. *)
Lemma materialize_view task history h :
  let vh := materialize (JObj [("task", task); ("history", history)]) h in
  h ⊆ vh.2 ∧
  ∀ n, (depth task ≤ n)%nat → (depth history ≤ n)%nat →
       view n vh.2 vh.1 = Some (task, history).
Proof.
  destruct (materialize _ h) as [v h'] eqn:Hm. simpl.
  destruct (materialize_spec _ _ _ _ Hm) as [Hsub Hr]. split; [done|].
  intros n Ht Hh. specialize (Hr (S n)).
  destruct (reify_obj_inv (S n) h' v _ (Hr ltac:(simpl; lia)))
    as (l & n' & ps & -> & [= <-] & Hl & Hps).
  apply mapM_Some in Hps.
  inversion Hps as [|[k1 v1] kt1 ps1 fs1 H1 Hps1]; subst.
  inversion Hps1 as [|[k2 v2] kt2 ps2 fs2 H2 Hps2]; subst.
  inversion Hps2; subst. simpl in H1, H2.
  destruct (reify n h' v1) as [t1|] eqn:Hv1; simplify_eq/=.
  destruct (reify n h' v2) as [t2|] eqn:Hv2; simplify_eq/=.
  by eapply view_intro.
Qed.
End FileStoreLoad.

(** ** FileStore: the directory *)

Section FileStoreDirectory.
Import FileStore.
Context (this : t).
Implicit Types (h : heap) (σ : backing) (p q : string).
Implicit Types (d : gmap string node) (ds : list string).

#[local] Arguments Path.directories : simpl never.

Ltac run := unfold mbind, M_bind, mret, M_ret, throw, try_catch, lift_outcome,
              settle, get_backing, set_backing, get_heap; simpl.

Lemma obstacle_None d ds :
  obstacle d ds = None ↔ Forall (λ k, d !! k = None ∨ d !! k = Some Dir) ds.
Proof.
  induction ds as [|k ds IH]; simpl; [by split; [constructor|]|].
  rewrite Forall_cons, <-IH.
  destruct (d !! k) as [[|c|code]|].
  - split; [by auto|by intros [_ ?]].
  - split; [done|by intros [[|] _]].
  - split; [done|by intros [[|] _]].
  - split; [by auto|by intros [_ ?]].
Qed.

Lemma mkdirs_lookup_in ds d q : q ∈ ds → mkdirs ds d !! q = Some Dir.
Proof.
  induction ds as [|k ds IH]; [by intros ?%elem_of_nil|].
  intros Hq. simpl. destruct (decide (q = k)) as [->|Hne].
  - apply lookup_insert_eq.
  - rewrite lookup_insert_ne by done. apply IH.
    by apply elem_of_cons in Hq as [|].
Qed.

Lemma mkdirs_lookup_notin ds d q : q ∉ ds → mkdirs ds d !! q = d !! q.
Proof.
  induction ds as [|k ds IH]; [done|].
  intros [Hne Hq]%not_elem_of_cons. simpl.
  rewrite lookup_insert_ne by done. by apply IH.
Qed.

Lemma mkdirs_idemp ds d : mkdirs ds (mkdirs ds d) = mkdirs ds d.
Proof.
  apply map_eq. intros q. destruct (decide (q ∈ ds)) as [Hq|Hq].
  - by rewrite !mkdirs_lookup_in.
  - by rewrite !mkdirs_lookup_notin.
Qed.

Lemma differ_at_refl ps σ : differ_at ps σ σ.
Proof. by split. Qed.

Lemma differ_at_trans ps σ1 σ2 σ3 :
  differ_at ps σ1 σ2 → differ_at ps σ2 σ3 → differ_at ps σ1 σ3.
Proof. intros [Hs1 Hd1] [Hs2 Hd2]. split; [congruence|]. intros q Hq. by rewrite Hd2, Hd1. Qed.

Lemma differ_at_mono ps ps' σ σ' : ps ⊆ ps' → differ_at ps σ σ' → differ_at ps' σ σ'.
Proof. intros Hsub [Hs Hd]. split; [done|]. intros q Hq. apply Hd. set_solver. Qed.

Lemma differ_at_logged ps op σ : differ_at ps σ (logged op σ).
Proof. by split. Qed.

Lemma differ_at_made p σ : differ_at (Path.directories p) σ (made p σ).
Proof. split; [done|]. intros q Hq. by apply mkdirs_lookup_notin. Qed.

Lemma differ_at_wrote p c σ : differ_at [p] σ (wrote p c σ).
Proof.
  split; [done|]. intros q Hq. simpl. apply lookup_insert_ne. set_solver.
Qed.

Lemma ensureDirectoryExists_ok h σ :
  dir_usable this σ →
  ensureDirectoryExists this (h, σ) = (Returns (), (h, made (baseDir this) σ)).
Proof.
  intros [Hne Hall]. unfold ensureDirectoryExists, fs_mkdir, log, set_disk, system_error.
  run. apply String.eqb_neq in Hne. rewrite Hne.
  apply obstacle_None in Hall. by rewrite Hall.
Qed.

Lemma ensureDirectoryExists_fails h σ :
  ¬ dir_usable this σ →
  ∃ cause,
    ensureDirectoryExists this (h, σ) =
      (Throws (InternalError ("Failed to create directory " +:+ baseDir this +:+ ": "
                                +:+ error_message cause) cause),
       (h, logged (Mkdir (baseDir this)) σ)).
Proof.
  intros Hd. unfold ensureDirectoryExists, fs_mkdir, log, set_disk, system_error. run.
  destruct (String.eqb (baseDir this) "") eqn:Hne.
  { eexists. reflexivity. }
  destruct (obstacle (disk σ) (Path.directories (baseDir this))) as [[k nd]|] eqn:Hob.
  - destruct nd as [|c|code]; try case_decide; eexists; reflexivity.
  - exfalso. apply Hd. split; [by apply String.eqb_neq|by apply obstacle_None].
Qed.

Lemma dir_usable_dec σ : dir_usable this σ ∨ ¬ dir_usable this σ.
Proof.
  unfold dir_usable.
  destruct (decide (baseDir this = "")) as [He|Hne]; [right; tauto|].
  destruct (obstacle (disk σ) (Path.directories (baseDir this))) eqn:Hob.
  - right. intros [_ Hall%obstacle_None]. congruence.
  - left. split; [done|by apply obstacle_None].
Qed.

(** Once made, the directory stays usable, and making it again changes
    nothing on the disk. *)
Lemma dir_usable_made σ : dir_usable this σ → dir_usable this (made (baseDir this) σ).
Proof.
  intros [Hne _]. split; [done|]. apply Forall_forall. intros k Hk.
  right. by apply mkdirs_lookup_in.
Qed.

Lemma made_made σ : disk (made (baseDir this) (made (baseDir this) σ)) = disk (made (baseDir this) σ).
Proof. apply mkdirs_idemp. Qed.

(** What is usable depends on the directories alone. *)
Lemma dir_usable_agree σ σ' :
  (∀ k, k ∈ Path.directories (baseDir this) → disk σ' !! k = disk σ !! k) →
  dir_usable this σ → dir_usable this σ'.
Proof.
  intros Hagree [Hne Hall]. split; [done|].
  rewrite Forall_forall in Hall |- *. intros k Hk. rewrite (Hagree k Hk). auto.
Qed.

Lemma ensureDirectoryExists_world h σ :
  ∃ σ', (ensureDirectoryExists this (h, σ)).2 = (h, σ') ∧
        differ_at (Path.directories (baseDir this)) σ σ'.
Proof.
  destruct (dir_usable_dec σ) as [Hd|Hd].
  - rewrite (ensureDirectoryExists_ok h σ Hd). eexists. split; [done|apply differ_at_made].
  - destruct (ensureDirectoryExists_fails h σ Hd) as [c ->].
    eexists. split; [done|apply differ_at_logged].
Qed.
End FileStoreDirectory.

(** ** FileStore: one write *)

Section FileStoreWrite.
Import FileStore.
Context (this : t).
Implicit Types (h : heap) (σ : backing) (p q : string) (v : jsval) (g : progress).

#[local] Arguments Path.directories : simpl never.
#[local] Arguments serialize : simpl never.

Ltac run := unfold mbind, M_bind, mret, M_ret, throw, try_catch, lift_outcome,
              settle, get_backing, set_backing, get_heap; simpl.

Lemma try_catch_throws {W A} (body : M W A) handler w e w' :
  try_catch body handler w = (Throws e, w') →
  ∃ e0 w0, body w = (Throws e0, w0) ∧ handler e0 w0 = (Throws e, w').
Proof. unfold try_catch. destruct (body w) as [[a|e0] w0]; [done|eauto]. Qed.

(** [writeJsonFile] is its two stretches, one after the other. *)
Lemma writeJsonFile_stretches p v h σ :
  writeJsonFile this p v (h, σ) =
    (writeJsonFile_directory this p;; writeJsonFile_text p v) (h, σ).
Proof.
  unfold writeJsonFile, writeJsonFile_directory, writeJsonFile_text. run.
  destruct (ensureDirectoryExists this (h, σ)) as [[[]|e] w]; [|done].
  by destruct (JSON_stringify v w) as [[c|e] w'].
Qed.

Lemma fs_writeFile_ok p c h σ :
  writable σ p → fs_writeFile p c (h, σ) = (Returns (), (h, wrote p c σ)).
Proof.
  unfold writable, fs_writeFile, log, set_disk, system_error. run.
  by destruct (disk σ !! p) as [[|c'|code]|].
Qed.

Lemma fs_writeFile_world p c h σ :
  ∃ σ', (fs_writeFile p c (h, σ)).2 = (h, σ') ∧ differ_at [p] σ σ'.
Proof.
  unfold fs_writeFile, log, set_disk, system_error. run.
  destruct (disk σ !! p) as [[|c'|code]|]; eexists; (split; [reflexivity|]).
  all: split; [done|]; intros q Hq; simpl; try done.
  all: apply lookup_insert_ne; set_solver.
Qed.

(** The text is written, or nothing is and the error is an internal
    error; which of the two depends on the value and on what the disk
    holds at the path. *)
Lemma writeJsonFile_text_cases p v h σ :
  (∃ doc, serialize (S (size h)) h v = Some (Some doc) ∧ writable σ p ∧
          writeJsonFile_text p v (h, σ) = (Returns (), (h, wrote p (Text doc) σ))) ∨
  (∃ m c σ', (∀ doc, serialize (S (size h)) h v = Some (Some doc) → ¬ writable σ p) ∧
             writeJsonFile_text p v (h, σ) = (Throws (InternalError m c), (h, σ')) ∧
             disk σ' = disk σ ∧ schedule σ' = schedule σ).
Proof.
  unfold writeJsonFile_text, write_failure, JSON_stringify. run.
  destruct (serialize (S (size h)) h v) as [[doc|]|] eqn:Hs; run.
  - unfold fs_writeFile, log, set_disk, system_error, writable. run.
    destruct (disk σ !! p) as [[|c'|code]|] eqn:Hp.
    + right. eexists _, _, _. split_and!; [by intros ? _ ?|reflexivity|done..].
    + left. by exists doc.
    + right. eexists _, _, _. split_and!; [by intros ? _ ?|reflexivity|done..].
    + left. by exists doc.
  - right. eexists _, _, _. split_and!; [done|reflexivity|done..].
  - right. eexists _, _, _. split_and!; [done|reflexivity|done..].
Qed.

Lemma writeJsonFile_text_ok p v doc h σ :
  serialize (S (size h)) h v = Some (Some doc) → writable σ p →
  writeJsonFile_text p v (h, σ) = (Returns (), (h, wrote p (Text doc) σ)).
Proof.
  intros Hs Hw.
  destruct (writeJsonFile_text_cases p v h σ)
    as [(doc' & Hs' & _ & ->)|(m & c & σ' & Hno & _)].
  - congruence.
  - by destruct (Hno doc Hs).
Qed.

Lemma writeJsonFile_text_fails p v h σ :
  ¬ writable σ p →
  ∃ m c σ', writeJsonFile_text p v (h, σ) = (Throws (InternalError m c), (h, σ')) ∧
            disk σ' = disk σ ∧ schedule σ' = schedule σ.
Proof.
  intros Hw.
  destruct (writeJsonFile_text_cases p v h σ)
    as [(doc' & _ & Hw' & _)|(m & c & σ' & _ & Hrun & Hd & Hs)]; [done|].
  by exists m, c, σ'.
Qed.

Lemma writeJsonFile_text_world p v h σ :
  ∃ σ', (writeJsonFile_text p v (h, σ)).2 = (h, σ') ∧ differ_at [p] σ σ'.
Proof.
  destruct (writeJsonFile_text_cases p v h σ)
    as [(doc & _ & _ & ->)|(m & c & σ' & _ & -> & Hd & Hs)].
  - eexists. split; [done|apply differ_at_wrote].
  - exists σ'. split; [done|]. split; [done|]. intros q _. by rewrite Hd.
Qed.

Lemma writeJsonFile_text_throws p v w e w' :
  writeJsonFile_text p v w = (Throws e, w') → ∃ m c, e = InternalError m c.
Proof.
  unfold writeJsonFile_text. intros (e0 & w0 & _ & H)%try_catch_throws.
  unfold write_failure, throw in H. injection H as <- _. eauto.
Qed.

Lemma writable_agree σ σ' p : disk σ' !! p = disk σ !! p → writable σ p → writable σ' p.
Proof. unfold writable. by intros ->. Qed.

Lemma in_flight_world g p v h σ :
  ∃ σ', (in_flight g p (writeJsonFile_text p v) (h, σ)).2 = (h, σ') ∧ differ_at [p] σ σ'.
Proof.
  destruct g as [| |raw|]; simpl.
  - eexists. split; [done|apply differ_at_refl].
  - eexists. split; [done|apply differ_at_logged].
  - apply fs_writeFile_world.
  - apply writeJsonFile_text_world.
Qed.
End FileStoreWrite.

(** ** FileStore: two writes at once *)

Section FileStoreRace.
Import FileStore.
Context (this : t).
Implicit Types (h : heap) (σ : backing) (p q : string) (v : jsval) (g : progress).
Implicit Types (turn : turn).

#[local] Arguments Path.directories : simpl never.
#[local] Arguments serialize : simpl never.
#[local] Arguments writeJsonFile_text : simpl never.
#[local] Arguments in_flight : simpl never.

(** The two writes of a task: both return, or the first rejection is an
    internal error. *)
Lemma race_returns turn p1 v1 p2 v2 h σ u w' :
  race turn p1 (writeJsonFile_text p1 v1) p2 (writeJsonFile_text p2 v2) (h, σ)
    = (Returns u, w') →
  ∃ doc1 doc2,
    serialize (S (size h)) h v1 = Some (Some doc1) ∧
    serialize (S (size h)) h v2 = Some (Some doc2) ∧
    writable σ p1 ∧ writable (wrote p1 (Text doc1) σ) p2 ∧
    w' = (h, wrote p2 (Text doc2) (wrote p1 (Text doc1) σ)).
Proof.
  unfold race.
  destruct (writeJsonFile_text_cases p1 v1 h σ)
    as [(doc1 & Hs1 & Hw1 & ->)|(m1 & c1 & σ1 & _ & -> & _)].
  - destruct (writeJsonFile_text_cases p2 v2 h (wrote p1 (Text doc1) σ))
      as [(doc2 & Hs2 & Hw2 & ->)|(m2 & c2 & σ2 & _ & -> & _)]; [|done].
    intros [= <- <-]. by exists doc1, doc2.
  - destruct (writeJsonFile_text p2 v2 (h, σ1)) as [[[]|e2] w2]; [done|].
    by destruct (second_first turn), (other turn).
Qed.

Lemma race_ok turn p1 v1 p2 v2 doc1 doc2 h σ :
  p1 ≠ p2 →
  serialize (S (size h)) h v1 = Some (Some doc1) → writable σ p1 →
  serialize (S (size h)) h v2 = Some (Some doc2) → writable σ p2 →
  race turn p1 (writeJsonFile_text p1 v1) p2 (writeJsonFile_text p2 v2) (h, σ)
    = (Returns (), (h, wrote p2 (Text doc2) (wrote p1 (Text doc1) σ))).
Proof.
  intros Hne Hs1 Hw1 Hs2 Hw2. unfold race.
  rewrite (writeJsonFile_text_ok _ _ _ _ _ Hs1 Hw1).
  rewrite (writeJsonFile_text_ok p2 v2 doc2 h (wrote p1 (Text doc1) σ) Hs2); [done|].
  eapply writable_agree; [|exact Hw2]. simpl. by apply lookup_insert_ne.
Qed.

Lemma race_throws turn p1 v1 p2 v2 w e w' :
  race turn p1 (writeJsonFile_text p1 v1) p2 (writeJsonFile_text p2 v2) w
    = (Throws e, w') →
  ∃ m c, e = InternalError m c.
Proof.
  unfold race.
  destruct (writeJsonFile_text p1 v1 w) as [[[]|e1] w1] eqn:H1.
  all: destruct (writeJsonFile_text p2 v2 w1) as [[[]|e2] w2] eqn:H2; try done.
  - intros [= <- _]. by eapply writeJsonFile_text_throws.
  - intros [= <- _]. by eapply writeJsonFile_text_throws.
  - apply writeJsonFile_text_throws in H1 as (m1 & c1 & ->).
    apply writeJsonFile_text_throws in H2 as (m2 & c2 & ->).
    destruct (second_first turn), (other turn); intros [= <- _]; eauto.
Qed.

(** Whatever the two writes do, the heap is as before and the disk
    changes at their two paths alone. *)
Lemma race_world turn p1 v1 p2 v2 h σ :
  ∃ σ',
    (race turn p1 (writeJsonFile_text p1 v1) p2 (writeJsonFile_text p2 v2) (h, σ)).2
      = (h, σ') ∧
    differ_at [p1; p2] σ σ'.
Proof.
  unfold race.
  destruct (writeJsonFile_text_world p1 v1 h σ) as (σ1 & Hw1 & Hd1).
  destruct (writeJsonFile_text p1 v1 (h, σ)) as [r1 w1] eqn:H1. simpl in Hw1. subst w1.
  destruct (writeJsonFile_text_world p2 v2 h σ1) as (σ2 & Hw2 & Hd2).
  destruct (writeJsonFile_text p2 v2 (h, σ1)) as [r2 w2] eqn:H2. simpl in Hw2. subst w2.
  assert (differ_at [p1; p2] σ σ1) as Hd1' by (eapply differ_at_mono; [|exact Hd1]; set_solver).
  assert (differ_at [p1; p2] σ1 σ2) as Hd2' by (eapply differ_at_mono; [|exact Hd2]; set_solver).
  assert (differ_at [p1; p2] σ σ2) as Hd12 by by eapply differ_at_trans.
  destruct r1 as [[]|e1], r2 as [[]|e2]; simpl.
  - by exists σ2.
  - destruct (in_flight_world (other turn) p1 v1 h σ) as (σa & Ha & Hda).
    rewrite Ha.
    destruct (writeJsonFile_text_world p2 v2 h σa) as (σb & Hb & Hdb).
    exists σb. split; [done|].
    eapply differ_at_trans; (eapply differ_at_mono; [|eassumption]); set_solver.
  - destruct (in_flight_world (other turn) p2 v2 h σ1) as (σa & Ha & Hda).
    exists σa. split; [done|].
    eapply differ_at_trans; [exact Hd1'|].
    eapply differ_at_mono; [|exact Hda]. set_solver.
  - destruct (second_first turn), (other turn) as [| |raw|]; simpl;
      try (by exists σ2); [|by exists σ1].
    destruct (writeJsonFile_text_world p2 v2 h σ) as (σb & Hb & Hdb).
    exists σb. split; [done|]. eapply differ_at_mono; [|exact Hdb]. set_solver.
Qed.

(** When the first write fails and the second can be made, the rejection
    finds the second file as it was, opened with a part of the text in
    it, or written, as the event loop has it; and the other way round. *)
Lemma race_first_fails turn p1 v1 p2 v2 doc2 h σ :
  p1 ≠ p2 → ¬ writable σ p1 →
  serialize (S (size h)) h v2 = Some (Some doc2) → writable σ p2 →
  ∃ m c σ',
    race turn p1 (writeJsonFile_text p1 v1) p2 (writeJsonFile_text p2 v2) (h, σ)
      = (Throws (InternalError m c), (h, σ')) ∧
    disk σ' !! p1 = disk σ !! p1 ∧
    disk σ' !! p2 = match other turn with
                    | Waiting | Called => disk σ !! p2
                    | Opened raw => Some (Regular (Garbled raw))
                    | Written => Some (Regular (Text doc2))
                    end.
Proof.
  intros Hne Hw1 Hs2 Hw2. unfold race.
  destruct (writeJsonFile_text_fails p1 v1 h σ Hw1) as (m & c & σ1 & -> & Hd1 & Hsch1).
  assert (writable σ1 p2) as Hw2' by (eapply writable_agree; [|exact Hw2]; by rewrite Hd1).
  rewrite (writeJsonFile_text_ok p2 v2 doc2 h σ1 Hs2 Hw2').
  exists m, c. unfold in_flight. destruct (other turn) as [| |raw|]; unfold mret, M_ret; simpl.
  - exists σ1. by rewrite Hd1.
  - exists (logged (WriteFile p2) σ1). simpl. by rewrite Hd1.
  - rewrite (fs_writeFile_ok _ _ _ _ Hw2'). eexists. split; [done|]. simpl.
    rewrite lookup_insert_ne by done. rewrite lookup_insert_eq. by rewrite Hd1.
  - rewrite (writeJsonFile_text_ok p2 v2 doc2 h σ1 Hs2 Hw2').
    eexists. split; [done|]. simpl.
    rewrite lookup_insert_ne by done. rewrite lookup_insert_eq. by rewrite Hd1.
Qed.

Lemma race_second_fails turn p1 v1 p2 v2 doc1 h σ :
  p1 ≠ p2 → serialize (S (size h)) h v1 = Some (Some doc1) → writable σ p1 →
  ¬ writable σ p2 →
  ∃ m c σ',
    race turn p1 (writeJsonFile_text p1 v1) p2 (writeJsonFile_text p2 v2) (h, σ)
      = (Throws (InternalError m c), (h, σ')) ∧
    disk σ' !! p2 = disk σ !! p2 ∧
    disk σ' !! p1 = match other turn with
                    | Waiting | Called => disk σ !! p1
                    | Opened raw => Some (Regular (Garbled raw))
                    | Written => Some (Regular (Text doc1))
                    end.
Proof.
  intros Hne Hs1 Hw1 Hw2. unfold race.
  rewrite (writeJsonFile_text_ok p1 v1 doc1 h σ Hs1 Hw1).
  assert (∀ σ0, disk σ0 !! p2 = disk σ !! p2 → ¬ writable σ0 p2) as Hno.
  { intros σ0 Heq Hw. apply Hw2. eapply writable_agree; [|exact Hw]. done. }
  destruct (writeJsonFile_text_fails p2 v2 h (wrote p1 (Text doc1) σ)) as (m & c & σ2 & -> & _).
  { apply Hno. simpl. by apply lookup_insert_ne. }
  exists m, c. unfold in_flight. destruct (other turn) as [| |raw|]; unfold mret, M_ret; simpl.
  - destruct (writeJsonFile_text_fails p2 v2 h σ Hw2) as (m' & c' & σ' & -> & Hd & _).
    exists σ'. by rewrite Hd.
  - destruct (writeJsonFile_text_fails p2 v2 h (logged (WriteFile p1) σ))
      as (m' & c' & σ' & -> & Hd & _).
    { by apply Hno. }
    exists σ'. split; [done|]. by rewrite Hd.
  - rewrite (fs_writeFile_ok _ _ _ _ Hw1). simpl.
    destruct (writeJsonFile_text_fails p2 v2 h (wrote p1 (Garbled raw) σ))
      as (m' & c' & σ' & -> & Hd & _).
    { apply Hno. simpl. by apply lookup_insert_ne. }
    exists σ'. split; [done|]. rewrite Hd. simpl.
    rewrite lookup_insert_ne by done. by rewrite lookup_insert_eq.
  - rewrite (writeJsonFile_text_ok p1 v1 doc1 h σ Hs1 Hw1). simpl.
    destruct (writeJsonFile_text_fails p2 v2 h (wrote p1 (Text doc1) σ))
      as (m' & c' & σ' & -> & Hd & _).
    { apply Hno. simpl. by apply lookup_insert_ne. }
    exists σ'. split; [done|]. rewrite Hd. simpl.
    rewrite lookup_insert_ne by done. by rewrite lookup_insert_eq.
Qed.
End FileStoreRace.

(** ** FileStore: [save] *)

Section FileStoreSave.
Import FileStore.
Context (this : t).
Implicit Types (h : heap) (σ : backing) (n : nat) (p q id : string).

#[local] Arguments reify : simpl never.
#[local] Arguments serialize : simpl never.
#[local] Arguments Path.directories : simpl never.
#[local] Arguments writeJsonFile_text : simpl never.
#[local] Arguments race : simpl never.
#[local] Arguments ensureDirectoryExists : simpl never.
#[local] Arguments getHistoryFilePath : simpl never.
#[local] Arguments getTaskFilePath : simpl never.

Ltac run := unfold mbind, M_bind, mret, M_ret, throw, try_catch, lift_outcome,
              settle, get_backing, set_backing, get_heap; simpl.

(** [save] of a value whose task id is refused. *)
Lemma save_rejects h σ ld d lt tps id hv :
  h !! ld = Some (OObject d) →
  assoc "task" d = Some (VRef lt) → h !! lt = Some (OObject tps) →
  assoc "id" tps = Some (VStr id) → assoc "history" d = Some hv →
  valid_id id = false →
  save this (VRef ld) (h, σ) =
    (Throws (InvalidParams ("Invalid Task ID format: " +:+ id)), (h, σ)).
Proof.
  intros Hld Htask Hlt Hid Hhist Hv.
  unfold save, props_of, prop, string_of, alloc. run.
  rewrite Hld. run. rewrite Htask, Hhist. run. rewrite Hlt. run. rewrite Hid. run.
  by rewrite (getHistoryFilePath_invalid _ _ _ _ Hv).
Qed.

(** [save] of a value whose task id is accepted, when the directory
    cannot be made. *)
Lemma save_without_directory h σ ld d lt tps id hv :
  h !! ld = Some (OObject d) →
  assoc "task" d = Some (VRef lt) → h !! lt = Some (OObject tps) →
  assoc "id" tps = Some (VStr id) → assoc "history" d = Some hv →
  valid_id id = true → ¬ dir_usable this σ →
  ∃ cause,
    save this (VRef ld) (h, σ) =
      (Throws (InternalError ("Failed to create directory " +:+ baseDir this +:+ ": "
                                +:+ error_message cause) cause),
       (h, logged (Mkdir (baseDir this)) σ)).
Proof.
  intros Hld Htask Hlt Hid Hhist Hv Hd.
  unfold save, props_of, prop, string_of, alloc. run.
  rewrite Hld. run. rewrite Htask, Hhist. run. rewrite Hlt. run. rewrite Hid. run.
  rewrite (getHistoryFilePath_valid _ _ _ _ Hv).
  destruct (ensureDirectoryExists_fails this h σ Hd) as [c ->]. by exists c.
Qed.

(** [save] of a value whose task id is accepted, once the directory is
    there: the wrapper of the history is allocated, each write asks for
    the directory again, and the two texts are written side by side. *)
Lemma save_unfold h σ ld d lt tps id hv :
  h !! ld = Some (OObject d) →
  assoc "task" d = Some (VRef lt) → h !! lt = Some (OObject tps) →
  assoc "id" tps = Some (VStr id) → assoc "history" d = Some hv →
  valid_id id = true → dir_usable this σ →
  save this (VRef ld) (h, σ) =
    race (schedule σ (length (trace σ) + 3))
      (task_path this id) (writeJsonFile_text (task_path this id) (VRef lt))
      (history_path this id)
      (writeJsonFile_text (history_path this id) (VRef (fresh (dom h))))
      (<[fresh (dom h) := OObject [("messageHistory", hv)]]> h,
       made (baseDir this) (made (baseDir this) (made (baseDir this) σ))).
Proof.
  intros Hld Htask Hlt Hid Hhist Hv Hd.
  unfold save, props_of, prop, string_of, alloc. run.
  rewrite Hld. run. rewrite Htask, Hhist. run. rewrite Hlt. run. rewrite Hid. run.
  rewrite (getHistoryFilePath_valid _ _ _ _ Hv), (getTaskFilePath_valid _ _ Hv).
  rewrite (ensureDirectoryExists_ok this h σ Hd).
  unfold new_object, Promise_all, writeJsonFile_directory. run.
  pose proof (dir_usable_made this σ Hd) as Hd1.
  rewrite (ensureDirectoryExists_ok this _ _ Hd1).
  pose proof (dir_usable_made this _ Hd1) as Hd2.
  rewrite (ensureDirectoryExists_ok this _ _ Hd2).
  f_equal. cbn [schedule trace made]. f_equal. rewrite !length_app. simpl. lia.
Qed.

(** The files of a task on the disk that the directory was made on. *)
Lemma made3_lookup σ q :
  q ∉ Path.directories (baseDir this) →
  disk (made (baseDir this) (made (baseDir this) (made (baseDir this) σ))) !! q
    = disk σ !! q.
Proof. intros Hq. simpl. by rewrite !mkdirs_lookup_notin. Qed.

Lemma made3_disk σ :
  disk (made (baseDir this) (made (baseDir this) (made (baseDir this) σ)))
    = disk (made (baseDir this) σ).
Proof. simpl. by rewrite !mkdirs_idemp. Qed.

Lemma made3_writable σ p :
  p ∉ Path.directories (baseDir this) → writable σ p →
  writable (made (baseDir this) (made (baseDir this) (made (baseDir this) σ))) p.
Proof. intros Hp. apply writable_agree. by apply made3_lookup. Qed.

(** A [save] that returns has made the directory and written both files:
    the text of the task at the metadata path, the text of the history,
    under [messageHistory], at the history path. *)
Lemma save_returns h σ ld d lt tps id hv u w1 :
  h !! ld = Some (OObject d) →
  assoc "task" d = Some (VRef lt) → h !! lt = Some (OObject tps) →
  assoc "id" tps = Some (VStr id) → assoc "history" d = Some hv →
  valid_id id = true →
  save this (VRef ld) (h, σ) = (Returns u, w1) →
  ∃ tt wd,
    h ⊆ w1.1 ∧
    serialize (S (size w1.1)) w1.1 (VRef lt) = Some (Some tt) ∧
    serialize (S (size w1.1)) w1.1 (VRef (fresh (dom h))) = Some (Some wd) ∧
    w1.1 !! fresh (dom h) = Some (OObject [("messageHistory", hv)]) ∧
    dir_usable this σ ∧
    writable σ (task_path this id) ∧ writable σ (history_path this id) ∧
    disk w1.2 =
      <[history_path this id := Regular (Text wd)]>
        (<[task_path this id := Regular (Text tt)]> (disk (made (baseDir this) σ))).
Proof.
  intros Hld Htask Hlt Hid Hhist Hv Hsave.
  destruct (dir_usable_dec this σ) as [Hd|Hd].
  2: { destruct (save_without_directory h σ ld d lt tps id hv) as [c Hc]; try done.
       congruence. }
  rewrite (save_unfold h σ ld d lt tps id hv) in Hsave by done.
  apply race_returns in Hsave as (tt & wd & Hs1 & Hs2 & Hw1 & Hw2 & ->).
  exists tt, wd. cbn [fst snd].
  split_and!; try done.
  - apply insert_subseteq, not_elem_of_dom, is_fresh.
  - apply lookup_insert_eq.
  - eapply writable_agree; [|exact Hw1]. symmetry. apply made3_lookup.
    by apply task_path_not_directory.
  - eapply writable_agree; [|exact Hw2]. simpl.
    rewrite lookup_insert_ne by by apply task_path_ne_history_path.
    rewrite !mkdirs_lookup_notin; [done|by apply history_path_not_directory..].
  - cbn [disk wrote]. by rewrite made3_disk.
Qed.

(** [save] of a value whose task id is accepted returns or fails with an
    internal error. *)
Lemma save_cases h σ ld d lt tps id hv :
  h !! ld = Some (OObject d) →
  assoc "task" d = Some (VRef lt) → h !! lt = Some (OObject tps) →
  assoc "id" tps = Some (VStr id) → assoc "history" d = Some hv →
  valid_id id = true →
  (∃ w, save this (VRef ld) (h, σ) = (Returns (), w)) ∨
  (∃ m cause w, save this (VRef ld) (h, σ) = (Throws (InternalError m cause), w)).
Proof.
  intros Hld Htask Hlt Hid Hhist Hv.
  destruct (dir_usable_dec this σ) as [Hd|Hd].
  2: { destruct (save_without_directory h σ ld d lt tps id hv) as [c Hc]; try done.
       right. eauto. }
  rewrite (save_unfold h σ ld d lt tps id hv) by done.
  match goal with
  | |- context [race ?t ?p1 ?r1 ?p2 ?r2 ?w] =>
      destruct (race t p1 r1 p2 r2 w) as [[[]|e] w'] eqn:Hrace
  end.
  - left. eauto.
  - right. apply race_throws in Hrace as (m & c & ->). eauto.
Qed.



(** [save] of a task changes the disk at the directories on the way to
    the base directory and at the two files of the task, and nowhere
    else. *)
Lemma save_disk_frame h σ ld d lt tps id hv q :
  h !! ld = Some (OObject d) →
  assoc "task" d = Some (VRef lt) → h !! lt = Some (OObject tps) →
  assoc "id" tps = Some (VStr id) → assoc "history" d = Some hv →
  q ∉ Path.directories (baseDir this) →
  q ≠ task_path this id → q ≠ history_path this id →
  disk (save this (VRef ld) (h, σ)).2.2 !! q = disk σ !! q.
Proof.
  intros Hld Htask Hlt Hid Hhist Hq Hqt Hqh.
  destruct (valid_id id) eqn:Hv.
  2: { by rewrite (save_rejects h σ ld d lt tps id hv). }
  destruct (dir_usable_dec this σ) as [Hd|Hd].
  2: { destruct (save_without_directory h σ ld d lt tps id hv) as [c ->]; done. }
  rewrite (save_unfold h σ ld d lt tps id hv) by done.
  match goal with
  | |- context [race ?t ?p1 (writeJsonFile_text _ ?v1) ?p2 (writeJsonFile_text _ ?v2) (?h1, ?σ1)] =>
      destruct (race_world t p1 v1 p2 v2 h1 σ1) as (σ' & -> & _ & Hdiff)
  end.
  cbn [snd]. rewrite Hdiff by set_solver. by apply made3_lookup.
Qed.
End FileStoreSave.
(** ** FileStore: [load] after [save] *)

Section FileStoreRoundTrip.
Import FileStore.
Context (this : t).
Implicit Types (h : heap) (σ : backing) (n : nat) (p id : string).

(** A message of the schema passes the check of the type guard. *)
Lemma is_message_guard m : is_message m = true → message_guard m = Returns true.
Proof.
  destruct m as [| | | | |fs]; try done. unfold is_message, message_guard. simpl.
  destruct (assoc "role" fs) as [[| | |r| |]|]; try done.
  destruct (assoc "parts" fs) as [[| | | |ps|]|]; try (by rewrite andb_false_r).
  rewrite andb_true_r. intros Hr. simpl. rewrite andb_true_r.
  destruct r as [|c r]; [done|done].
Qed.

Lemma messages_guard ms :
  forallb is_message ms = true → every message_guard ms = Returns true.
Proof.
  induction ms as [|m ms IH]; [done|]. simpl.
  intros [Hm Hms]%andb_true_iff. rewrite (is_message_guard _ Hm). auto.
Qed.

Lemma recovered_history_saved ms :
  forallb is_message ms = true →
  recovered_history (Some (Regular (Text (JObj [("messageHistory", JArr ms)])))) = JArr ms.
Proof.
  intros Hms. unfold recovered_history, isHistoryFileContent. simpl.
  by rewrite (messages_guard _ Hms).
Qed.

(** A file of the shape [{messageHistory: Message[]}] is accepted by the
    type guard.  The converse fails: the guard looks at no more than the
    truthiness of [role] and [parts]. *)
Lemma shape_is_accepted doc :
  history_file_shape doc = true → isHistoryFileContent doc = Returns true.
Proof.
  destruct doc as [| | | | |fs]; try done. unfold history_file_shape, isHistoryFileContent.
  simpl. destruct (assoc "messageHistory" fs) as [[| | | |ms|]|]; try done.
  apply messages_guard.
Qed.


End FileStoreRoundTrip.

(** ** FileStore: every way a call can end *)

Section FileStoreOutcomes.
Import FileStore.
Context (this : t).
Implicit Types (h : heap) (σ : backing) (n : nat) (p id : string).

#[local] Arguments truthy : simpl never.
#[local] Arguments reify : simpl never.
#[local] Arguments writeJsonFile : simpl never.
#[local] Arguments ensureDirectoryExists : simpl never.
#[local] Arguments getHistoryFilePath : simpl never.
#[local] Arguments getTaskFilePath : simpl never.

Ltac run := unfold mbind, M_bind, mret, M_ret, throw, try_catch, lift_outcome,
              settle, get_backing, set_backing, get_heap, fresh_copy; simpl.

Lemma load_enoent id h σ :
  valid_id id = true → disk σ !! task_path this id = Some (Blocked "ENOENT") →
  load this id (h, σ) = (Returns VNull, (h, logged (ReadFile (task_path this id)) σ)).
Proof.
  intros Hv Hp. unfold load. run.
  rewrite (getHistoryFilePath_valid _ _ _ _ Hv), (getTaskFilePath_valid _ _ Hv).
  by rewrite (readJsonFile_enoent _ _ _ Hp).
Qed.

(** For an accepted id [load] returns, or fails with the internal error of
    a damaged metadata file. *)
Lemma load_cases id h σ :
  valid_id id = true →
  (∃ r w, load this id (h, σ) = (Returns r, w)) ∨
  (∃ nd cause,
     disk σ !! task_path this id = Some nd ∧ damaged nd ∧
     load this id (h, σ) =
       (Throws (InternalError ("Failed to read file " +:+ task_path this id +:+ ": "
                                 +:+ error_message cause) cause),
        (h, logged (ReadFile (task_path this id)) σ))).
Proof.
  intros Hv.
  destruct (node_cases (disk σ !! task_path this id))
    as [Hp|[Hp|[[doc Hp]|(nd & Hp & Hnd)]]].
  - left. rewrite (load_absent _ _ _ _ Hv Hp). eauto.
  - left. rewrite (load_enoent _ _ _ Hv Hp). eauto.
  - left. destruct (truthy (Some doc)) eqn:Hdoc.
    + rewrite (load_found _ _ _ _ _ Hv Hp Hdoc). eauto.
    + rewrite (load_falsy _ _ _ _ _ Hv Hp Hdoc). eauto.
  - right. destruct (load_damaged _ _ _ h _ Hv Hp Hnd) as [cause Hload]. eauto 6.
Qed.

End FileStoreOutcomes.

(** ** Records of other tasks *)

Section InMemoryFrame.
Import InMemoryTaskStore.
Implicit Types (h : heap) (m : gmap string jsval) (n : nat).

Lemma stored_weaken n h h' m id x :
  h ⊆ h' → stored n h m id = Some x → stored n h' m id = Some x.
Proof.
  unfold stored. intros Hsub. destruct (m !! id) as [e|]; [|done]. simpl.
  by apply view_weaken.
Qed.

(** [load] answers with the trees of the entry it keeps. *)
Lemma InMemory_load_stored n h m id t ms id' :
  stored n h m id = Some (t, JArr ms) → task_id t = Some id' →
  ∃ r h', load id (h, m) = (Returns r, (h', m)) ∧ h ⊆ h' ∧
          view n h' r = Some (t, JArr ms).
Proof.
  unfold stored. destruct (m !! id) as [e|] eqn:Hm; [|done]. simpl.
  intros Hview Hid.
  destruct (view_shape _ _ _ _ _ _ Hview Hid)
    as (le & d & lt & tps & hv & -> & Hle & Htask & Hlt & Hidp & Hhist & Hrt & Hrh).
  destruct (reify_arr_inv _ _ _ _ Hrh) as (lh & n' & hs & -> & -> & Hlh & _).
  destruct (InMemory_load_spec h m id le d lt lh tps hs)
    as (h' & r & l1' & l2' & Hload & Hsub & Hr & Hl1' & Hl2'); try done.
  exists (VRef r), h'. split_and!; [done..|].
  eapply view_intro; [exact Hr|done|done|..].
  - rewrite (reify_ref_same _ _ l1' lt).
    + by eapply reify_weaken.
    + rewrite Hl1'. symmetry. by eapply lookup_weaken.
  - rewrite (reify_ref_same _ _ l2' lh).
    + by eapply reify_weaken.
    + rewrite Hl2'. symmetry. by eapply lookup_weaken.
Qed.

(** Saving task [x] leaves the entry of every other task in place, with
    the trees it had. *)
Lemma InMemory_save_frame n h m data tt ms x y :
  view n h data = Some (tt, JArr ms) → task_id tt = Some x → x ≠ y →
  ∃ h1 m1,
    save data (h, m) = (Returns (), (h1, m1)) ∧
    m1 !! y = m !! y ∧
    ∀ x0, stored n h m y = Some x0 → stored n h1 m1 y = Some x0.
Proof.
  intros Hview Hid Hxy.
  destruct (view_shape _ _ _ _ _ _ Hview Hid)
    as (ld & d & lt & tps & hv & -> & Hld & Htask & Hlt & Hidp & Hhist & Hrt & Hrh).
  destruct (reify_arr_inv _ _ _ _ Hrh) as (lh & n' & hs & -> & -> & Hlh & _).
  destruct (InMemory_save_spec h m ld d lt tps x lh hs)
    as (h1 & e & l1 & l2 & Hsave & Hsub1 & He & Hl1 & Hl2); try done.
  exists h1, (<[x := VRef e]> m).
  assert (<[x := VRef e]> m !! y = m !! y) as Hy by by apply lookup_insert_ne.
  split_and!; [done..|].
  intros x0 Hx0. unfold stored. rewrite Hy.
  by apply (stored_weaken _ _ _ _ _ _ Hsub1) in Hx0.
Qed.
End InMemoryFrame.

Section FileStoreFrame.
Import FileStore.
Context (this : t).
Implicit Types (h : heap) (σ : backing) (n : nat) (p q id : string).

#[local] Arguments truthy : simpl never.
#[local] Arguments reify : simpl never.
#[local] Arguments writeJsonFile : simpl never.
#[local] Arguments ensureDirectoryExists : simpl never.
#[local] Arguments getHistoryFilePath : simpl never.
#[local] Arguments getTaskFilePath : simpl never.

(** [load] is a function of the disk: the heap it runs in has no say in
    what it finds. *)
Lemma load_verdict id h σ :
  match verdict_of this id (disk σ) with
  | Refused =>
      load this id (h, σ) =
        (Throws (InvalidParams ("Invalid Task ID format: " +:+ id)), (h, σ))
  | NotFound =>
      load this id (h, σ) =
        (Returns VNull, (h, logged (ReadFile (task_path this id)) σ))
  | Broken =>
      ∃ cause,
        load this id (h, σ) =
          (Throws (InternalError ("Failed to read file " +:+ task_path this id +:+ ": "
                                    +:+ error_message cause) cause),
           (h, logged (ReadFile (task_path this id)) σ))
  | Found task history =>
      ∃ r h',
        load this id (h, σ) =
          (Returns r, (h', logged (ReadFile (history_path this id))
                             (logged (ReadFile (task_path this id)) σ))) ∧
        h ⊆ h' ∧
        ∀ n, (depth task ≤ n)%nat → (depth history ≤ n)%nat →
             view n h' r = Some (task, history)
  end.
Proof.
  unfold verdict_of. destruct (valid_id id) eqn:Hv; [|by apply load_rejects].
  destruct (disk σ !! task_path this id) as [[|[task|raw]|code]|] eqn:Hp.
  - by eapply (load_damaged this id Dir).
  - destruct (truthy (Some task)) eqn:Htask; [|by eapply load_falsy].
    rewrite (load_found this id task h σ Hv Hp Htask). cbv zeta.
    destruct (materialize_view task (recovered_history (disk σ !! history_path this id)) h)
      as [Hsub Hview].
    by eexists _, _.
  - by eapply (load_damaged this id (Regular (Garbled raw))).
  - destruct (decide (code = "ENOENT")) as [->|Hc]; [by apply load_enoent|].
    by eapply (load_damaged this id (Blocked code)).
  - by apply load_absent.
Qed.

Lemma verdict_of_agree id (d d' : gmap string node) :
  d !! task_path this id = d' !! task_path this id →
  d !! history_path this id = d' !! history_path this id →
  verdict_of this id d = verdict_of this id d'.
Proof. unfold verdict_of. by intros -> ->. Qed.

(** Saving task [x] leaves what [load] finds for task [y] as it was,
    unless one of the two ids is the other followed by [.history]. *)
Lemma FileStore_save_frame n h σ data tt th x y :
  view n h data = Some (tt, th) → task_id tt = Some x →
  x ≠ y → x ≠ y +:+ ".history" → y ≠ x +:+ ".history" →
  verdict_of this y (disk (save this data (h, σ)).2.2) = verdict_of this y (disk σ).
Proof.
  intros Hview Hid Hxy Hxh Hyh.
  destruct (view_shape _ _ _ _ _ _ Hview Hid)
    as (ld & d & lt & tps & hv & -> & Hld & Htask & Hlt & Hidp & Hhist & _ & _).
  destruct (valid_id y) eqn:Hy; [|unfold verdict_of; by rewrite Hy].
  destruct (valid_id x) eqn:Hx.
  2: { by rewrite (save_rejects this h σ ld d lt tps x hv). }
  apply verdict_of_agree.
  - eapply save_disk_frame; try done.
    + by apply task_path_not_directory.
    + intros H%task_path_inj; done.
    + intros H%task_path_history_path; done.
  - eapply save_disk_frame; try done.
    + by apply history_path_not_directory.
    + intros H. symmetry in H. apply task_path_history_path in H; done.
    + intros H%history_path_inj; done.
Qed.
End FileStoreFrame.

(** * The persistence contract *)

Section Claims.
Import FileStore.
Implicit Types (this : t) (h : heap) (σ : backing) (n : nat) (id : string).

(** C2. An id whose final path segment differs from it, or that contains
    [..], is refused by [save] and by [load] with the invalid-parameters
    error before [fs] is called: the heap, the disk and the log of [fs]
    calls are what they were. *)
Theorem invalid_id_is_refused_before_any_access this n h σ data tt th id :
  view n h data = Some (tt, th) → task_id tt = Some id →
  Path.basename id ≠ id ∨ Path.includes ".." id = true →
  FileStore.save this data (h, σ) =
    (Throws (InvalidParams ("Invalid Task ID format: " +:+ id)), (h, σ)) ∧
  FileStore.load this id (h, σ) =
    (Throws (InvalidParams ("Invalid Task ID format: " +:+ id)), (h, σ)).
Proof.
  intros Hview Hid Hbad%invalid_id_spec.
  destruct (view_shape _ _ _ _ _ _ Hview Hid)
    as (ld & d & lt & tps & hv & -> & Hld & Htask & Hlt & Hidp & Hhist & _ & _).
  split.
  - by eapply save_rejects.
  - by apply load_rejects.
Qed.

Lemma invalid_id_is_refused_witness :
  FileStore.save default_store sample_value (sample_heap_for "../escape", empty_disk) =
    (Throws (InvalidParams "Invalid Task ID format: ../escape"),
     (sample_heap_for "../escape", empty_disk)) ∧
  FileStore.load default_store "../escape" (sample_heap_for "../escape", empty_disk) =
    (Throws (InvalidParams "Invalid Task ID format: ../escape"),
     (sample_heap_for "../escape", empty_disk)).
Proof.
  apply (invalid_id_is_refused_before_any_access default_store 6
           (sample_heap_for "../escape") empty_disk sample_value
           (JObj [("id", JStr "../escape"); ("status", JObj [("state", JStr "working")])])
           sample_history "../escape").
  - vm_compute. reflexivity.
  - reflexivity.
  - left. vm_compute. discriminate.
Defined.

(** C5. When the metadata file of an accepted id is absent, [load] answers
    [null] after that one read.  Nothing is assumed of the history path:
    a history file left there is not even opened. *)
Theorem load_without_metadata_is_not_found this id h σ :
  valid_id id = true →
  disk σ !! task_path this id = None →
  FileStore.load this id (h, σ) = (Returns VNull, (h, logged (ReadFile (task_path this id)) σ)).
Proof. apply load_absent. Qed.

Lemma load_without_metadata_witness :
  FileStore.load default_store "t1"
    (∅, disk_with [("t1.history.json",
                    Regular (Text (JObj [("messageHistory", sample_history)])))]) =
    (Returns VNull,
     (∅, logged (ReadFile ".a2a-tasks/t1.json")
           (disk_with [("t1.history.json",
                        Regular (Text (JObj [("messageHistory", sample_history)])))]))).
Proof.
  apply (load_without_metadata_is_not_found default_store "t1" ∅).
  - vm_compute. reflexivity.
  - vm_compute. reflexivity.
Defined.

(** C6. When the metadata file of an accepted id parses to a task and
    there is no history file, [load] returns the task with an empty
    history. *)
Theorem load_without_history_is_empty_history this id task h σ :
  valid_id id = true →
  disk σ !! task_path this id = Some (Regular (Text task)) →
  truthy (Some task) = true →
  disk σ !! history_path this id = None →
  ∃ r h',
    FileStore.load this id (h, σ) =
      (Returns r, (h', logged (ReadFile (history_path this id))
                         (logged (ReadFile (task_path this id)) σ))) ∧
    ∀ n, (depth task ≤ n)%nat → (1 ≤ n)%nat → view n h' r = Some (task, JArr []).
Proof.
  intros Hv Htp Htask Hhp.
  pose proof (load_found this id task h σ Hv Htp Htask) as Hload.
  rewrite Hhp in Hload. cbv zeta in Hload. unfold recovered_history in Hload.
  destruct (materialize_view task (JArr []) h) as [_ Hview].
  eexists _, _. split; [exact Hload|].
  intros n Hn H1. by apply Hview.
Qed.

Lemma load_without_history_witness :
  ∃ r h',
    FileStore.load default_store "t1"
      (∅, disk_with [("t1.json", Regular (Text sample_task))]) =
      (Returns r, (h', logged (ReadFile ".a2a-tasks/t1.history.json")
                         (logged (ReadFile ".a2a-tasks/t1.json")
                            (disk_with [("t1.json", Regular (Text sample_task))])))) ∧
    ∀ n, (depth sample_task ≤ n)%nat → (1 ≤ n)%nat →
         view n h' r = Some (sample_task, JArr []).
Proof.
  apply (load_without_history_is_empty_history default_store "t1" sample_task ∅).
  - vm_compute. reflexivity.
  - vm_compute. reflexivity.
  - reflexivity.
  - vm_compute. reflexivity.
Defined.

(** C10. An id with [..] anywhere in it is refused even when it is a
    single path segment, and the ids refused are exactly those whose final
    path segment differs from them or that contain [..]. *)
Theorem refusal_is_exactly_basename_or_dotdot this n h σ data tt th id :
  view n h data = Some (tt, th) → task_id tt = Some id →
  (Path.includes ".." id = true →
     FileStore.save this data (h, σ) =
       (Throws (InvalidParams ("Invalid Task ID format: " +:+ id)), (h, σ)) ∧
     FileStore.load this id (h, σ) =
       (Throws (InvalidParams ("Invalid Task ID format: " +:+ id)), (h, σ))) ∧
  ((∃ m w, FileStore.save this data (h, σ) = (Throws (InvalidParams m), w)) ↔
     (Path.basename id ≠ id ∨ Path.includes ".." id = true)) ∧
  ((∃ m w, FileStore.load this id (h, σ) = (Throws (InvalidParams m), w)) ↔
     (Path.basename id ≠ id ∨ Path.includes ".." id = true)).
Proof.
  intros Hview Hid.
  destruct (view_shape _ _ _ _ _ _ Hview Hid)
    as (ld & d & lt & tps & hv & -> & Hld & Htask & Hlt & Hidp & Hhist & _ & _).
  split_and!.
  - intros Hdots.
    assert (valid_id id = false) as Hv by (apply invalid_id_spec; by right).
    split; [by eapply save_rejects|by apply load_rejects].
  - rewrite <-invalid_id_spec. split.
    + intros (m & w & Hsave). destruct (valid_id id) eqn:Hv; [|done].
      destruct (save_cases this h σ _ _ _ _ _ _ Hld Htask Hlt Hidp Hhist Hv)
        as [[w' Hs]|(m' & c & w' & Hs)]; congruence.
    + intros Hv. eexists _, _. by eapply save_rejects.
  - rewrite <-invalid_id_spec. split.
    + intros (m & w & Hload). destruct (valid_id id) eqn:Hv; [|done].
      destruct (load_cases this id h σ Hv)
        as [(r & w' & Hl)|(nd & c & _ & _ & Hl)]; congruence.
    + intros Hv. eexists _, _. by apply load_rejects.
Qed.

Lemma refusal_of_dotted_segment_witness :
  Path.basename "a..b" = "a..b" ∧
  FileStore.save default_store sample_value (sample_heap_for "a..b", empty_disk) =
    (Throws (InvalidParams "Invalid Task ID format: a..b"),
     (sample_heap_for "a..b", empty_disk)) ∧
  FileStore.load default_store "a..b" (sample_heap_for "a..b", empty_disk) =
    (Throws (InvalidParams "Invalid Task ID format: a..b"),
     (sample_heap_for "a..b", empty_disk)).
Proof.
  split; [reflexivity|].
  apply (refusal_is_exactly_basename_or_dotdot default_store 6
           (sample_heap_for "a..b") empty_disk sample_value
           (JObj [("id", JStr "a..b"); ("status", JObj [("state", JStr "working")])])
           sample_history "a..b").
  - vm_compute. reflexivity.
  - reflexivity.
  - reflexivity.
Defined.






(** C7, as the code has it.  With a metadata file that parses to a task,
    [load] returns whatever state the history file is in, after reading
    the two files.  The history is empty when there is no history file and
    when that file is set aside, that is when it cannot be read, cannot be
    parsed, or is not accepted by [isHistoryFileContent]; a file that
    [isHistoryFileContent] accepts holds a list under [messageHistory],
    and that list is the history returned. *)
Theorem load_survives_the_history_file this id task h σ :
  valid_id id = true →
  disk σ !! task_path this id = Some (Regular (Text task)) →
  truthy (Some task) = true →
  ∃ r h' history,
    FileStore.load this id (h, σ) =
      (Returns r, (h', logged (ReadFile (history_path this id))
                         (logged (ReadFile (task_path this id)) σ))) ∧
    (∀ n, (depth task ≤ n)%nat → (depth history ≤ n)%nat →
          view n h' r = Some (task, history)) ∧
    (disk σ !! history_path this id = None → history = JArr []) ∧
    (∀ nd, disk σ !! history_path this id = Some nd → set_aside nd →
           history = JArr []) ∧
    (∀ doc, disk σ !! history_path this id = Some (Regular (Text doc)) →
            isHistoryFileContent doc = Returns true →
            ∃ ms, get doc "messageHistory" = Some (JArr ms) ∧ history = JArr ms).
Proof.
  intros Hv Htp Htask.
  pose proof (load_found this id task h σ Hv Htp Htask) as Hload. cbv zeta in Hload.
  destruct (materialize_view task (recovered_history (disk σ !! history_path this id)) h)
    as [_ Hview].
  eexists _, _, _. split_and!; [exact Hload|exact Hview|..].
  - by intros ->.
  - intros nd -> Hnd. unfold recovered_history.
    destruct nd as [|[doc|raw]|code]; try done. simpl in Hnd.
    by destruct (isHistoryFileContent doc) as [[|]|e].
  - intros doc -> Hok. unfold recovered_history. rewrite Hok.
    unfold isHistoryFileContent in Hok.
    destruct (typeof_object doc && negb (is_null doc)); [|done].
    destruct (get doc "messageHistory") as [[| | | |ms|]|]; try done.
    by exists ms.
Qed.

Lemma load_survives_the_history_file_witness :
  ∃ r h' history,
    FileStore.load default_store "t1"
      (∅, disk_with [("t1.json", Regular (Text sample_task));
                     ("t1.history.json", Regular (Text stray_history_file))]) =
      (Returns r, (h', logged (ReadFile ".a2a-tasks/t1.history.json")
                         (logged (ReadFile ".a2a-tasks/t1.json")
                            (disk_with [("t1.json", Regular (Text sample_task));
                                        ("t1.history.json",
                                         Regular (Text stray_history_file))])))) ∧
    (∀ n, (depth sample_task ≤ n)%nat → (depth history ≤ n)%nat →
          view n h' r = Some (sample_task, history)) ∧
    history = JArr [stray_entry].
Proof.
  destruct (load_survives_the_history_file default_store "t1" sample_task ∅
              (disk_with [("t1.json", Regular (Text sample_task));
                          ("t1.history.json", Regular (Text stray_history_file))])
              ltac:(vm_compute; reflexivity) ltac:(vm_compute; reflexivity)
              ltac:(reflexivity))
    as (r & h' & history & Hload & Hview & _ & _ & Hkept).
  destruct (Hkept stray_history_file ltac:(vm_compute; reflexivity) ltac:(reflexivity))
    as (ms & Hms & ->).
  injection Hms as <-.
  exists r, h', (JArr [stray_entry]). split_and!; [exact Hload|exact Hview|reflexivity].
Defined.

(** C7, as stated, fails: a history file that is not of the shape
    [{messageHistory: Message[]}] but passes [isHistoryFileContent] is
    returned as the history, not replaced by the empty list. *)
Lemma history_of_wrong_shape_is_loaded :
  history_file_shape stray_history_file = false ∧
  (load_and_observe default_store "t1"
     (∅, disk_with [("t1.json", Regular (Text sample_task));
                    ("t1.history.json", Regular (Text stray_history_file))])).1
    = Returns (Some (sample_task, JArr [stray_entry])) ∧
  JArr [stray_entry] ≠ JArr [].
Proof. split_and!; [reflexivity|vm_compute; reflexivity|discriminate]. Qed.

(** C8, as the code has it.  For an accepted id, [load] answers [null]
    when the metadata file is absent; when that file is there and cannot
    be read or parsed it fails with an internal error that names the path
    and wraps the cause; and it fails in no other case. *)
Theorem load_fails_only_on_damaged_metadata this id h σ :
  valid_id id = true →
  (disk σ !! task_path this id = None →
     FileStore.load this id (h, σ) =
       (Returns VNull, (h, logged (ReadFile (task_path this id)) σ))) ∧
  (∀ nd, disk σ !! task_path this id = Some nd → damaged nd →
     ∃ cause,
       FileStore.load this id (h, σ) =
         (Throws (InternalError ("Failed to read file " +:+ task_path this id +:+ ": "
                                   +:+ error_message cause) cause),
          (h, logged (ReadFile (task_path this id)) σ))) ∧
  (∀ e w, FileStore.load this id (h, σ) = (Throws e, w) →
     ∃ nd cause,
       disk σ !! task_path this id = Some nd ∧ damaged nd ∧
       e = InternalError ("Failed to read file " +:+ task_path this id +:+ ": "
                            +:+ error_message cause) cause).
Proof.
  intros Hv. split_and!.
  - by apply load_absent.
  - intros nd Hp Hnd. by eapply load_damaged.
  - intros e w Hload.
    destruct (load_cases this id h σ Hv) as [(r & w' & Hl)|(nd & c & Hp & Hnd & Hl)];
      [congruence|].
    rewrite Hl in Hload. injection Hload as <- _. eauto.
Qed.

Lemma load_fails_only_on_damaged_metadata_witness :
  ∃ cause,
    FileStore.load default_store "t1" (∅, disk_with [("t1.json", Regular (Garbled "{"))]) =
      (Throws (InternalError ("Failed to read file " +:+ ".a2a-tasks/t1.json" +:+ ": "
                                +:+ error_message cause) cause),
       (∅, logged (ReadFile ".a2a-tasks/t1.json")
             (disk_with [("t1.json", Regular (Garbled "{"))]))).
Proof.
  apply (proj1 (proj2 (load_fails_only_on_damaged_metadata default_store "t1" ∅
                         (disk_with [("t1.json", Regular (Garbled "{"))])
                         ltac:(vm_compute; reflexivity)))
           (Regular (Garbled "{"))).
  - vm_compute. reflexivity.
  - exact I.
Defined.

(** C8, as stated, fails: a metadata file that does not parse makes [load]
    raise an internal error; it does not answer [null]. *)
Lemma unparsable_metadata_raises :
  valid_id "t1" = true ∧
  (FileStore.load default_store "t1" (∅, disk_with [("t1.json", Regular (Garbled "{"))])).1 =
    Throws (InternalError
              "Failed to read file .a2a-tasks/t1.json: Unexpected token in JSON"
              (SyntaxError "Unexpected token in JSON")).
Proof. split; vm_compute; reflexivity. Qed.

(** C3 on the code: the copies of [InMemoryTaskStore] are one level deep.
    A part pushed onto a message of a loaded value shows in the next
    [load], and a status changed on the value passed to [save] shows in a
    later [load]; the same callers leave a [FileStore] record as it was. *)
Theorem in_memory_copies_share_nested_objects :
  (mutate_loaded () (∅, ∅)).1 =
    Returns
      (Some (sample_task, sample_history),
       Some (sample_task,
             JArr [JObj [("role", JStr "user");
                         ("parts",
                          JArr [JObj [("type", JStr "text"); ("text", JStr "hello")];
                                JObj [("type", JStr "text");
                                      ("text", JStr "injected")]])]])) ∧
  (mutate_saved () (∅, ∅)).1 =
    Returns
      (Some (sample_task, sample_history),
       Some (JObj [("id", JStr "t1"); ("status", JObj [("state", JStr "tampered")])],
             sample_history)) ∧
  (mutate_loaded default_store (∅, empty_disk)).1 =
    Returns (Some (sample_task, sample_history), Some (sample_task, sample_history)) ∧
  (mutate_saved default_store (∅, empty_disk)).1 =
    Returns (Some (sample_task, sample_history), Some (sample_task, sample_history)).
Proof. split_and!; vm_compute; reflexivity. Qed.

(** C4 on the code: the metadata file of task [b.history] is the history
    file of task [b].  Saving [b.history] empties the history that [load]
    returns for [b] in a [FileStore]; in an [InMemoryTaskStore] the record
    of [b] stays as it was. *)
Theorem history_file_of_one_task_is_metadata_file_of_another :
  valid_id "b" = true ∧ valid_id "b.history" = true ∧
  FileStore.getTaskFilePath default_store "b.history" = history_path default_store "b" ∧
  (save_other default_store "b" "b.history" (∅, empty_disk)).1 =
    Returns
      (Some (JObj [("id", JStr "b"); ("status", JObj [("state", JStr "working")])],
             sample_history),
       Some (JObj [("id", JStr "b"); ("status", JObj [("state", JStr "working")])],
             JArr [])) ∧
  (save_other () "b" "b.history" (∅, ∅)).1 =
    Returns
      (Some (JObj [("id", JStr "b"); ("status", JObj [("state", JStr "working")])],
             sample_history),
       Some (JObj [("id", JStr "b"); ("status", JObj [("state", JStr "working")])],
             sample_history)).
Proof. split_and!; vm_compute; reflexivity. Qed.
End Claims.

(** * Further properties of the stores *)

(** ** Ids and paths *)

Section AcceptedIds.
Import FileStore.
Implicit Types (this : t) (h : heap) (σ : backing) (id : string).

(** X1. [getHistoryFilePath] returns a path exactly for the ids that hold
    no separator and no [..]; the path it returns, and the one that
    [getTaskFilePath] computes, are then the id itself with the file's
    suffix, under the base directory.  Every other id makes it throw. *)
Theorem history_path_is_returned_exactly_for_plain_ids this id h σ :
  (Path.has_sep id = false ∧ Path.includes ".." id = false →
     getHistoryFilePath this id (h, σ) =
       (Returns (Path.join (baseDir this) (id +:+ ".history.json")), (h, σ)) ∧
     getTaskFilePath this id = Path.join (baseDir this) (id +:+ ".json")) ∧
  ((∃ p w, getHistoryFilePath this id (h, σ) = (Returns p, w)) ↔
     (Path.has_sep id = false ∧ Path.includes ".." id = false)).
Proof.
  split.
  - intros Hv%valid_id_no_sep. split.
    + by apply getHistoryFilePath_valid.
    + by apply getTaskFilePath_valid.
  - rewrite <-valid_id_no_sep. split.
    + intros (p & w & Hp). destruct (valid_id id) eqn:Hv; [done|].
      by rewrite (getHistoryFilePath_invalid _ _ _ _ Hv) in Hp.
    + intros Hv. eexists _, _. by apply getHistoryFilePath_valid.
Qed.

(** X2. Whatever directory option the store is built with, the base
    directory has a name, and the two files of an accepted id lie in it.
    Each path is what [path.join] makes of the directory, which depends on
    the directory alone, followed by one segment, the id with the suffix
    of the file: that segment is the final segment of the path, the path
    is none of the directories that [fs.mkdir] makes, and when [fs.mkdir]
    has a directory to make the path is that directory, a separator and
    the segment. *)
Theorem files_of_an_accepted_id_lie_in_the_base_directory dir id h σ :
  valid_id id = true →
  baseDir (new dir) ≠ "" ∧
  getTaskFilePath (new dir) id = Path.stem (baseDir (new dir)) +:+ (id +:+ ".json") ∧
  getHistoryFilePath (new dir) id (h, σ) =
    (Returns (Path.stem (baseDir (new dir)) +:+ (id +:+ ".history.json")), (h, σ)) ∧
  Path.basename (Path.stem (baseDir (new dir)) +:+ (id +:+ ".json")) = id +:+ ".json" ∧
  Path.basename (Path.stem (baseDir (new dir)) +:+ (id +:+ ".history.json"))
    = id +:+ ".history.json" ∧
  Path.stem (baseDir (new dir)) +:+ (id +:+ ".json")
    ∉ Path.directories (baseDir (new dir)) ∧
  Path.stem (baseDir (new dir)) +:+ (id +:+ ".history.json")
    ∉ Path.directories (baseDir (new dir)) ∧
  (∀ d, last (Path.directories (baseDir (new dir))) = Some d →
        Path.stem (baseDir (new dir)) = d +:+ "/").
Proof.
  intros Hv.
  pose proof (task_name_plain id Hv) as Ht.
  pose proof (history_name_plain id Hv) as Hh.
  split_and!.
  - by destruct dir as [[|c d]|].
  - rewrite (getTaskFilePath_valid _ _ Hv). by apply task_path_stem.
  - rewrite (getHistoryFilePath_valid _ _ _ _ Hv). by rewrite history_path_stem.
  - rewrite <-(join_plain _ _ Ht). by apply basename_join.
  - rewrite <-(join_plain _ _ Hh). by apply basename_join.
  - rewrite <-(join_plain _ _ Ht). by apply join_not_directory.
  - rewrite <-(join_plain _ _ Hh). by apply join_not_directory.
  - apply stem_last.
Qed.

Lemma files_of_an_accepted_id_witness :
  getTaskFilePath (new (Some "./data/")) "t1" = "data/t1.json" ∧
  Path.basename "data/t1.json" = "t1.json" ∧
  "data/t1.json" ∉ Path.directories "./data/".
Proof.
  pose proof (files_of_an_accepted_id_lie_in_the_base_directory (Some "./data/") "t1"
                ∅ empty_disk ltac:(vm_compute; reflexivity))
    as (_ & H2 & _ & H4 & _ & H6 & _).
  split_and!; [exact H2|exact H4|exact H6].
Defined.
End AcceptedIds.

(** ** What [FileStore.load] does and does not do *)

Section LoadFurther.
Import FileStore.
Implicit Types (this : t) (h : heap) (σ : backing) (n : nat) (p id : string).

#[local] Arguments truthy : simpl never.
#[local] Arguments materialize : simpl never.
#[local] Arguments isHistoryFileContent : simpl never.
#[local] Arguments getHistoryFilePath : simpl never.
#[local] Arguments getTaskFilePath : simpl never.
#[local] Arguments readJsonFile : simpl never.

(** X3. [load] only reads.  Whatever the id and whatever the disk holds,
    the disk after [load] is the disk before it, every object of the heap
    is as it was, and the calls to [fs] are none (a refused id), one read
    of the metadata file, or that read followed by one read of the history
    file. *)
Theorem load_only_reads this id h σ :
  disk (load this id (h, σ)).2.2 = disk σ ∧
  h ⊆ (load this id (h, σ)).2.1 ∧
  (trace (load this id (h, σ)).2.2 = trace σ ∨
   trace (load this id (h, σ)).2.2 = trace σ ++ [ReadFile (task_path this id)] ∨
   trace (load this id (h, σ)).2.2 =
     trace σ ++ [ReadFile (task_path this id); ReadFile (history_path this id)]).
Proof.
  pose proof (load_verdict this id h σ) as Hl.
  destruct (verdict_of this id (disk σ)) as [| | |task history].
  - rewrite Hl. simpl. auto.
  - rewrite Hl. simpl. auto.
  - destruct Hl as [cause ->]. simpl. auto.
  - destruct Hl as (r & h' & -> & Hsub & _). simpl. split_and!; [done..|].
    right. right. by rewrite <-app_assoc.
Qed.

Lemma readJsonFile_damaged_uniform p nd σ :
  disk σ !! p = Some nd → damaged nd →
  ∃ cause, ∀ h,
    readJsonFile p (h, σ) =
      (Throws (InternalError ("Failed to read file " +:+ p +:+ ": "
                                +:+ error_message cause) cause),
       (h, logged (ReadFile p) σ)).
Proof.
  intros Hp Hnd. destruct nd as [|[doc|raw]|code]; simpl in Hnd; try done.
  - exists (SystemError "EISDIR" ("EISDIR" +:+ ": " +:+ "read" +:+ " '" +:+ p +:+ "'")).
    intros h. unfold readJsonFile, try_catch, fs_readFile, log, system_error.
    unfold mbind, M_bind, mret, M_ret, throw, get_backing, set_backing. simpl.
    by rewrite Hp.
  - exists (SyntaxError "Unexpected token in JSON").
    intros h. unfold readJsonFile, try_catch, fs_readFile, log, system_error.
    unfold mbind, M_bind, mret, M_ret, throw, get_backing, set_backing. simpl.
    by rewrite Hp.
  - exists (SystemError code (code +:+ ": " +:+ "open" +:+ " '" +:+ p +:+ "'")).
    intros h. unfold readJsonFile, try_catch, fs_readFile, log, system_error.
    unfold mbind, M_bind, mret, M_ret, throw, get_backing, set_backing. simpl.
    rewrite Hp. simpl. destruct (decide _) as [Heq|_]; [by simplify_eq/=|done].
Qed.

(** X4. What [load] answers is decided by the disk alone.  Run in two
    heaps over the same disk, it refuses in both, answers [null] in both,
    fails with the same error in both, or returns in each a value with the
    same two trees: no object a caller holds or changes has a say in it. *)
Theorem load_answer_does_not_depend_on_the_heap this id h1 h2 σ :
  (load this id (h1, σ)).2.2 = (load this id (h2, σ)).2.2 ∧
  ((∃ e, (load this id (h1, σ)).1 = Throws e ∧ (load this id (h2, σ)).1 = Throws e) ∨
   ((load this id (h1, σ)).1 = Returns VNull ∧ (load this id (h2, σ)).1 = Returns VNull) ∨
   (∃ r1 r2 task history,
      (load this id (h1, σ)).1 = Returns r1 ∧ (load this id (h2, σ)).1 = Returns r2 ∧
      ∀ n, (depth task ≤ n)%nat → (depth history ≤ n)%nat →
           view n (load this id (h1, σ)).2.1 r1 = Some (task, history) ∧
           view n (load this id (h2, σ)).2.1 r2 = Some (task, history))).
Proof.
  pose proof (load_verdict this id h1 σ) as H1.
  pose proof (load_verdict this id h2 σ) as H2.
  unfold verdict_of in *.
  destruct (valid_id id) eqn:Hv.
  2: { rewrite H1, H2. split; [done|]. left. eauto. }
  destruct (disk σ !! task_path this id) as [nd|] eqn:Hp.
  2: { rewrite H1, H2. split; [done|]. right. left. done. }
  destruct (node_cases (Some nd)) as [?|[Hnd|[[doc Hnd]|(nd' & Hnd & Hdam)]]];
    [done|..]; simplify_eq/=.
  - rewrite H1, H2. split; [done|]. right. left. done.
  - destruct (truthy (Some doc)).
    + destruct H1 as (r1 & h1' & -> & _ & Hv1), H2 as (r2 & h2' & -> & _ & Hv2).
      split; [done|]. right. right.
      exists r1, r2, doc, (recovered_history (disk σ !! history_path this id)). simpl.
      split_and!; [done..|]. intros n Hn Hm. split; [by apply Hv1|by apply Hv2].
    + rewrite H1, H2. split; [done|]. right. left. done.
  - clear H1 H2.
    destruct (readJsonFile_damaged_uniform _ _ _ Hp Hdam) as [cause Hread].
    assert (∀ h, load this id (h, σ) =
              (Throws (InternalError ("Failed to read file " +:+ task_path this id
                                        +:+ ": " +:+ error_message cause) cause),
               (h, logged (ReadFile (task_path this id)) σ))) as Hload.
    { intros h. unfold load. unfold mbind, M_bind, mret, M_ret. simpl.
      rewrite (getHistoryFilePath_valid _ _ _ _ Hv), (getTaskFilePath_valid _ _ Hv).
      by rewrite Hread. }
    rewrite !Hload. split; [done|]. left. eauto.
Qed.

(** X5. A metadata file that parses to a falsy value ([null], [false],
    [0] or the empty string) reads as a task that is not there: [load]
    answers [null] after that one read, and the history file is not
    opened.  Every other document makes [load] return an object. *)
Theorem falsy_metadata_reads_as_not_found this id doc h σ :
  valid_id id = true →
  disk σ !! task_path this id = Some (Regular (Text doc)) →
  (doc ∈ [JNull; JBool false; JNum 0; JStr ""] →
     load this id (h, σ) =
       (Returns VNull, (h, logged (ReadFile (task_path this id)) σ))) ∧
  (doc ∉ [JNull; JBool false; JNum 0; JStr ""] →
     ∃ l w, load this id (h, σ) = (Returns (VRef l), w)).
Proof.
  intros Hv Hp. split.
  - intros Hdoc. apply (load_falsy this id doc); [done..|].
    repeat (apply elem_of_cons in Hdoc as [->|Hdoc]; [done|]).
    by apply elem_of_nil in Hdoc.
  - intros Hdoc.
    assert (truthy (Some doc) = true) as Ht.
    { destruct doc as [|[]|z|s| |]; try done.
      - exfalso. apply Hdoc. set_solver.
      - exfalso. apply Hdoc. set_solver.
      - unfold truthy. destruct (z =? 0) eqn:Hz; [|done].
        apply Z.eqb_eq in Hz as ->. exfalso. apply Hdoc. set_solver.
      - unfold truthy. destruct (String.eqb s "") eqn:Hs; [|done].
        apply String.eqb_eq in Hs as ->. exfalso. apply Hdoc. set_solver. }
    rewrite (load_found this id doc h σ Hv Hp Ht). cbv zeta.
    destruct (materialize_view doc (recovered_history (disk σ !! history_path this id)) h)
      as [_ Hview].
    specialize (Hview _ (Nat.le_max_l _ _) (Nat.le_max_r _ _)).
    destruct (materialize _ h) as [v h'] eqn:Hm. simpl in *.
    unfold view in Hview. destruct v as [| | | |l| |]; try done. eauto.
Qed.

Lemma falsy_metadata_witness :
  load default_store "t1" (∅, disk_with [("t1.json", Regular (Text (JNum 0)))]) =
    (Returns VNull,
     (∅, logged (ReadFile ".a2a-tasks/t1.json")
           (disk_with [("t1.json", Regular (Text (JNum 0)))]))).
Proof.
  apply (proj1 (falsy_metadata_reads_as_not_found default_store "t1" (JNum 0) ∅
                  (disk_with [("t1.json", Regular (Text (JNum 0)))])
                  ltac:(vm_compute; reflexivity) ltac:(vm_compute; reflexivity))).
  set_solver.
Defined.
End LoadFurther.

(** ** The type guard of the history file *)

Section GuardFurther.
Import FileStore.
Implicit Types (this : t) (h : heap) (σ : backing) (n : nat) (id : string).

Lemma every_app f ms1 ms2 :
  every f ms1 = Returns true → every f (ms1 ++ ms2) = every f ms2.
Proof.
  induction ms1 as [|m ms1 IH]; [done|]. simpl.
  by destruct (f m) as [[|]|e].
Qed.

(** X6. [every] stops at the first entry that does not pass: when the
    entries before [m] pass and [m] does not, the guard's outcome is that
    of [m], whatever follows it.  So a [null] entry makes the guard throw
    a [TypeError] rather than answer [false], an entry without a role
    makes it answer [false], and in both cases [load] goes on with the
    empty history. *)
Theorem first_failing_entry_decides_the_guard ms1 m ms2 :
  every message_guard ms1 = Returns true →
  message_guard m ≠ Returns true →
  isHistoryFileContent (JObj [("messageHistory", JArr (ms1 ++ m :: ms2))])
    = message_guard m ∧
  (m = JNull →
     isHistoryFileContent (JObj [("messageHistory", JArr (ms1 ++ m :: ms2))])
       = Throws (TypeError "Cannot read properties of null (reading 'role')")) ∧
  (get m "role" = None → m ≠ JNull →
     isHistoryFileContent (JObj [("messageHistory", JArr (ms1 ++ m :: ms2))])
       = Returns false) ∧
  recovered_history
    (Some (Regular (Text (JObj [("messageHistory", JArr (ms1 ++ m :: ms2))]))))
    = JArr [].
Proof.
  intros Hms1 Hm.
  assert (isHistoryFileContent (JObj [("messageHistory", JArr (ms1 ++ m :: ms2))])
          = message_guard m) as Hguard.
  { unfold isHistoryFileContent. simpl. rewrite (every_app _ _ _ Hms1). simpl.
    by destruct (message_guard m) as [[|]|e]. }
  split_and!.
  - done.
  - intros ->. by rewrite Hguard.
  - intros Hrole Hnull. rewrite Hguard. unfold message_guard.
    destruct (typeof_object m); [|done].
    destruct m; try done. by rewrite Hrole.
  - unfold recovered_history. rewrite Hguard.
    by destruct (message_guard m) as [[|]|e].
Qed.

Lemma first_failing_entry_witness :
  isHistoryFileContent
    (JObj [("messageHistory",
            JArr ([JObj [("role", JStr "user"); ("parts", JArr [])]] ++ JNull :: [JNum 3]))])
    = Throws (TypeError "Cannot read properties of null (reading 'role')").
Proof.
  apply (first_failing_entry_decides_the_guard
           [JObj [("role", JStr "user"); ("parts", JArr [])]] JNull [JNum 3]);
    [reflexivity|discriminate|reflexivity].
Defined.

(** X7. The guard has no false alarm on the schema: a history file of the
    shape [{messageHistory: Message[]}] is accepted, and [load] returns
    the task with exactly the list the file holds. *)
Theorem well_shaped_history_is_returned this id task ms h σ :
  valid_id id = true →
  disk σ !! task_path this id = Some (Regular (Text task)) →
  truthy (Some task) = true →
  disk σ !! history_path this id
    = Some (Regular (Text (JObj [("messageHistory", JArr ms)]))) →
  forallb is_message ms = true →
  isHistoryFileContent (JObj [("messageHistory", JArr ms)]) = Returns true ∧
  ∃ r h',
    load this id (h, σ) =
      (Returns r, (h', logged (ReadFile (history_path this id))
                         (logged (ReadFile (task_path this id)) σ))) ∧
    ∀ n, (depth task ≤ n)%nat → (depth (JArr ms) ≤ n)%nat →
         view n h' r = Some (task, JArr ms).
Proof.
  intros Hv Htp Htask Hhp Hms. split.
  { by apply shape_is_accepted. }
  pose proof (load_found this id task h σ Hv Htp Htask) as Hload.
  rewrite Hhp, (recovered_history_saved _ Hms) in Hload. cbv zeta in Hload.
  destruct (materialize_view task (JArr ms) h) as [_ Hview].
  eexists _, _. split; [exact Hload|exact Hview].
Qed.

Lemma well_shaped_history_witness :
  isHistoryFileContent (JObj [("messageHistory", sample_history)]) = Returns true.
Proof.
  apply (well_shaped_history_is_returned default_store "t1" sample_task
           [JObj [("role", JStr "user");
                  ("parts", JArr [JObj [("type", JStr "text"); ("text", JStr "hello")]])]]
           ∅
           (disk_with [("t1.json", Regular (Text sample_task));
                       ("t1.history.json",
                        Regular (Text (JObj [("messageHistory", sample_history)])))])).
  - vm_compute. reflexivity.
  - vm_compute. reflexivity.
  - reflexivity.
  - vm_compute. reflexivity.
  - reflexivity.
Defined.
End GuardFurther.

(** ** What [FileStore.save] writes, and when it fails *)

Section SaveFurther.
Import FileStore.
Implicit Types (this : t) (h : heap) (σ : backing) (n : nat) (p q id : string).

#[local] Arguments reify : simpl never.
#[local] Arguments serialize : simpl never.
#[local] Arguments Path.directories : simpl never.
#[local] Arguments writeJsonFile_text : simpl never.
#[local] Arguments race : simpl never.
#[local] Arguments ensureDirectoryExists : simpl never.
#[local] Arguments getHistoryFilePath : simpl never.
#[local] Arguments getTaskFilePath : simpl never.




(** [path.join] normalises, so the path built from an id that is not
    accepted can be the file of another task; [getHistoryFilePath]
    refuses such an id before any path of it is used. *)
Lemma path_of_a_refused_id_can_be_the_file_of_another_task :
  valid_id "x/../t1" = false ∧
  task_path default_store "x/../t1" = task_path default_store "t1".
Proof. split; vm_compute; reflexivity. Qed.

(** X9. Saving task [x] leaves the two files of any other task [y] with
    an accepted id untouched, and with them what [load] finds for [y],
    provided neither id is the other followed by [.history]. *)
Theorem save_keeps_the_files_of_other_tasks this n h σ data tt th x y :
  view n h data = Some (tt, th) → task_id tt = Some x → valid_id y = true →
  x ≠ y → x ≠ y +:+ ".history" → y ≠ x +:+ ".history" →
  disk (save this data (h, σ)).2.2 !! task_path this y = disk σ !! task_path this y ∧
  disk (save this data (h, σ)).2.2 !! history_path this y
    = disk σ !! history_path this y ∧
  verdict_of this y (disk (save this data (h, σ)).2.2) = verdict_of this y (disk σ).
Proof.
  intros Hview Hid Hy Hxy Hxh Hyh.
  destruct (view_shape _ _ _ _ _ _ Hview Hid)
    as (ld & d & lt & tps & hv & -> & Hld & Htask & Hlt & Hidp & Hhist & _ & _).
  destruct (valid_id x) eqn:Hx.
  2: { by rewrite (save_rejects this h σ ld d lt tps x hv). }
  assert (disk (save this (VRef ld) (h, σ)).2.2 !! task_path this y
          = disk σ !! task_path this y) as Ht.
  { eapply save_disk_frame; try done.
    - by apply task_path_not_directory.
    - intros H%task_path_inj; done.
    - intros H%task_path_history_path; done. }
  assert (disk (save this (VRef ld) (h, σ)).2.2 !! history_path this y
          = disk σ !! history_path this y) as Hh.
  { eapply save_disk_frame; try done.
    - by apply history_path_not_directory.
    - intros H. symmetry in H. apply task_path_history_path in H; done.
    - intros H%history_path_inj; done. }
  split_and!; [done..|]. by apply verdict_of_agree.
Qed.

Lemma save_keeps_the_files_of_other_tasks_witness :
  verdict_of default_store "t2"
    (disk (save default_store sample_value (sample_heap, empty_disk)).2.2)
  = verdict_of default_store "t2" (disk empty_disk).
Proof.
  apply (save_keeps_the_files_of_other_tasks default_store 6 sample_heap empty_disk
           sample_value sample_task sample_history "t1" "t2").
  - vm_compute. reflexivity.
  - reflexivity.
  - vm_compute. reflexivity.
  - discriminate.
  - vm_compute. discriminate.
  - vm_compute. discriminate.
Defined.

(** X10. When the base directory cannot be made, [save] fails with the
    internal error of [ensureDirectoryExists] after that one call to
    [fs.mkdir]: nothing is serialised and no file is written. *)
Theorem save_stops_when_the_directory_cannot_be_made this n h σ data tt th id :
  view n h data = Some (tt, th) → task_id tt = Some id → valid_id id = true →
  ¬ dir_usable this σ →
  ∃ cause,
    save this data (h, σ) =
      (Throws (InternalError ("Failed to create directory " +:+ baseDir this +:+ ": "
                                +:+ error_message cause) cause),
       (h, logged (Mkdir (baseDir this)) σ)).
Proof.
  intros Hview Hid Hv Hd.
  destruct (view_shape _ _ _ _ _ _ Hview Hid)
    as (ld & d & lt & tps & hv & -> & Hld & Htask & Hlt & Hidp & Hhist & _ & _).
  by eapply save_without_directory.
Qed.

Lemma save_stops_when_the_directory_cannot_be_made_witness :
  ∃ cause,
    save default_store sample_value
      (sample_heap, Backing {[".a2a-tasks" := Regular (Garbled "x")]} [] in_order) =
      (Throws (InternalError ("Failed to create directory "
                                +:+ baseDir default_store +:+ ": "
                                +:+ error_message cause) cause),
       (sample_heap,
        logged (Mkdir (baseDir default_store))
          (Backing {[".a2a-tasks" := Regular (Garbled "x")]} [] in_order))).
Proof.
  apply (save_stops_when_the_directory_cannot_be_made default_store 6 sample_heap
           (Backing {[".a2a-tasks" := Regular (Garbled "x")]} [] in_order) sample_value
           sample_task sample_history "t1").
  - vm_compute. reflexivity.
  - reflexivity.
  - vm_compute. reflexivity.
  - intros [_ Hall]. vm_compute in Hall.
    apply Forall_cons in Hall as [[H|H] _]; discriminate.
Defined.

(** X11. The two writes of [save] are not one step.  When the metadata
    file cannot be written and the history file can, [save] fails with an
    internal error and leaves the metadata file as it was; the history
    file is, at that rejection, as it was, opened and so emptied with at
    most a part of the text in it, or holds the new history, as far as
    the event loop has let the write get.  When the
    history file cannot be written and the metadata file can, it is the
    other way round. *)
Theorem failed_save_leaves_the_other_write_in_flight this n h σ data tt th id :
  view n h data = Some (tt, th) → task_id tt = Some id → valid_id id = true →
  (n ≤ S (size h))%nat → dir_usable this σ →
  (¬ writable σ (task_path this id) → writable σ (history_path this id) →
     ∃ m cause w1,
       save this data (h, σ) = (Throws (InternalError m cause), w1) ∧
       disk w1.2 !! task_path this id = disk σ !! task_path this id ∧
       disk w1.2 !! history_path this id =
         match other (schedule σ (length (trace σ) + 3)) with
         | Waiting | Called => disk σ !! history_path this id
         | Opened raw => Some (Regular (Garbled raw))
         | Written => Some (Regular (Text (JObj [("messageHistory", th)])))
         end) ∧
  (writable σ (task_path this id) → ¬ writable σ (history_path this id) →
     ∃ m cause w1,
       save this data (h, σ) = (Throws (InternalError m cause), w1) ∧
       disk w1.2 !! history_path this id = disk σ !! history_path this id ∧
       disk w1.2 !! task_path this id =
         match other (schedule σ (length (trace σ) + 3)) with
         | Waiting | Called => disk σ !! task_path this id
         | Opened raw => Some (Regular (Garbled raw))
         | Written => Some (Regular (Text tt))
         end).
Proof.
  intros Hview Hid Hv Hn Hd.
  destruct (view_shape _ _ _ _ _ _ Hview Hid)
    as (ld & d & lt & tps & hv & -> & Hld & Htask & Hlt & Hidp & Hhist & Hrt & Hrh).
  rewrite (save_unfold this h σ ld d lt tps id hv) by done.
  set (lw := fresh (dom h)).
  set (h1 := <[lw := OObject [("messageHistory", hv)]]> h).
  assert (h !! lw = None) as Hfresh by apply not_elem_of_dom, is_fresh.
  assert (h ⊆ h1) as Hsub by by apply insert_subseteq.
  assert (size h1 = S (size h)) as Hsize by by apply map_size_insert_None.
  assert (h1 !! lw = Some (OObject [("messageHistory", hv)])) as Hlw
    by apply lookup_insert_eq.
  assert (serialize (S (size h1)) h1 (VRef lt) = Some (Some tt)) as Htt.
  { apply reify_serialize, (reify_fuel n); [lia|]. by eapply reify_weaken. }
  assert (serialize (S (size h1)) h1 (VRef lw)
          = Some (Some (JObj [("messageHistory", th)]))) as Hwr.
  { apply reify_serialize. unfold reify; fold reify. rewrite Hlw. simpl.
    rewrite (reify_fuel n (size h1) h1 hv th); [done|lia|by eapply reify_weaken]. }
  pose proof (task_path_not_directory this id Hv) as Hbt.
  pose proof (history_path_not_directory this id Hv) as Hbh.
  pose proof (task_path_ne_history_path this id Hv) as Hth.
  set (σ3 := made (baseDir this) (made (baseDir this) (made (baseDir this) σ))).
  assert (disk σ3 !! task_path this id = disk σ !! task_path this id) as Ht3
    by by apply made3_lookup.
  assert (disk σ3 !! history_path this id = disk σ !! history_path this id) as Hh3
    by by apply made3_lookup.
  split.
  - intros Hwt Hwh.
    destruct (race_first_fails (schedule σ (length (trace σ) + 3))
                (task_path this id) (VRef lt) (history_path this id) (VRef lw)
                (JObj [("messageHistory", th)]) h1 σ3)
      as (m & c & σ' & -> & H1 & H2); try done.
    { intros Hw. apply Hwt. eapply writable_agree; [|exact Hw]. done. }
    { eapply writable_agree; [|exact Hwh]. done. }
    exists m, c, (h1, σ'). split; [done|]. cbn [snd]. rewrite H1, H2, Ht3, Hh3. done.
  - intros Hwt Hwh.
    destruct (race_second_fails (schedule σ (length (trace σ) + 3))
                (task_path this id) (VRef lt) (history_path this id) (VRef lw)
                tt h1 σ3)
      as (m & c & σ' & -> & H2 & H1); try done.
    { eapply writable_agree; [|exact Hwt]. done. }
    { intros Hw. apply Hwh. eapply writable_agree; [|exact Hw]. done. }
    exists m, c, (h1, σ'). split; [done|]. cbn [snd]. rewrite H1, H2, Ht3, Hh3. done.
Qed.

Lemma failed_save_leaves_the_other_write_in_flight_witness :
  ∃ m cause w1,
    save default_store sample_value
      (sample_heap,
       scheduled (λ _, Turn false (Opened "")) (disk_with [("t1.json", Dir)]))
      = (Throws (InternalError m cause), w1) ∧
    disk w1.2 !! task_path default_store "t1" = Some Dir ∧
    disk w1.2 !! history_path default_store "t1" = Some (Regular (Garbled "")).
Proof.
  apply (proj1 (failed_save_leaves_the_other_write_in_flight default_store 6 sample_heap
                  (scheduled (λ _, Turn false (Opened "")) (disk_with [("t1.json", Dir)]))
                  sample_value sample_task sample_history "t1"
                  ltac:(vm_compute; reflexivity) ltac:(reflexivity)
                  ltac:(vm_compute; reflexivity) ltac:(vm_compute; lia)
                  ltac:(split; [discriminate|vm_compute; repeat constructor]))).
  - vm_compute. tauto.
  - vm_compute. exact I.
Defined.

Lemma task_path_of_history_name this y :
  task_path this (y +:+ ".history") = history_path this y.
Proof. unfold task_path, history_path. by rewrite string_app_assoc. Qed.

(** X12. Saving the same value again changes nothing on the disk: after a
    [save] that returned, a second [save] of that value returns too and
    leaves every file as the first one left it. *)
Theorem saving_again_changes_nothing this n h σ data tt th id w1 :
  view n h data = Some (tt, th) → task_id tt = Some id → valid_id id = true →
  save this data (h, σ) = (Returns (), w1) →
  ∃ w2, save this data w1 = (Returns (), w2) ∧ disk w2.2 = disk w1.2.
Proof.
  intros Hview Hid Hv Hsave.
  destruct (view_shape _ _ _ _ _ _ Hview Hid)
    as (ld & d & lt & tps & hv & -> & Hld & Htask & Hlt & Hidp & Hhist & Hrt & Hrh).
  destruct (save_returns this _ _ _ _ _ _ _ _ _ _ Hld Htask Hlt Hidp Hhist Hv Hsave)
    as (tt' & wd & Hsub & Htt' & Hwd & Hlw & Hd & Hwt & Hwh & Hdisk).
  destruct w1 as [h1 σ1]. cbn [fst snd] in *.
  assert (Some tt' = Some tt) as [= ->].
  { eapply serialize_reify; [|exact Htt']. by eapply reify_weaken. }
  assert (Some wd = Some (JObj [("messageHistory", th)])) as [= ->].
  { eapply (serialize_reify (S n)); [|exact Hwd].
    unfold reify; fold reify. rewrite Hlw. simpl.
    by rewrite (reify_weaken _ _ _ _ _ Hsub Hrh). }
  pose proof (task_path_not_directory this id Hv) as Hbt.
  pose proof (history_path_not_directory this id Hv) as Hbh.
  pose proof (task_path_ne_history_path this id Hv) as Hth.
  assert (disk σ1 !! history_path this id
          = Some (Regular (Text (JObj [("messageHistory", th)])))) as Hhp.
  { rewrite Hdisk. apply lookup_insert_eq. }
  assert (disk σ1 !! task_path this id = Some (Regular (Text tt))) as Htp.
  { rewrite Hdisk. rewrite lookup_insert_ne by done. apply lookup_insert_eq. }
  assert (∀ q, q ∈ Path.directories (baseDir this) → disk σ1 !! q = Some Dir) as Hdirs.
  { intros q Hq. rewrite Hdisk.
    rewrite !lookup_insert_ne by (intros <-; done).
    by apply mkdirs_lookup_in. }
  assert (dir_usable this σ1) as Hd1.
  { destruct Hd as [Hne _]. split; [done|]. apply Forall_forall. intros q Hq.
    right. by apply Hdirs. }
  assert (h1 !! ld = Some (OObject d)) as Hld1 by by eapply lookup_weaken.
  assert (h1 !! lt = Some (OObject tps)) as Hlt1 by by eapply lookup_weaken.
  rewrite (save_unfold this h1 σ1 ld d lt tps id hv) by done.
  set (lw2 := fresh (dom h1)).
  set (h2 := <[lw2 := OObject [("messageHistory", hv)]]> h1).
  assert (h1 !! lw2 = None) as Hfresh by apply not_elem_of_dom, is_fresh.
  assert (h1 ⊆ h2) as Hsub2 by by apply insert_subseteq.
  assert (size h2 = S (size h1)) as Hsize by by apply map_size_insert_None.
  assert (h2 !! lw2 = Some (OObject [("messageHistory", hv)])) as Hlw2
    by apply lookup_insert_eq.
  assert (serialize (S (size h2)) h2 (VRef lt) = Some (Some tt)) as Htt2.
  { apply (serialize_fuel (S (size h1))); [lia|]. by eapply serialize_weaken. }
  assert (serialize (size h2) h2 hv = Some (Some th)) as Hth2.
  { apply (serialize_fuel (size h1)); [lia|]. eapply serialize_weaken; [exact Hsub2|].
    unfold serialize in Hwd; fold serialize in Hwd. rewrite Hlw in Hwd. simpl in Hwd.
    destruct (serialize (size h1) h1 hv) as [[th'|]|] eqn:Hhv; simpl in Hwd; try done.
    by simplify_eq. }
  assert (serialize (S (size h2)) h2 (VRef lw2)
          = Some (Some (JObj [("messageHistory", th)]))) as Hwr2.
  { unfold serialize; fold serialize. rewrite Hlw2. simpl. by rewrite Hth2. }
  erewrite race_ok; [|try done..].
  2: { apply made3_writable; [done|]. unfold writable. by rewrite Htp. }
  2: { apply made3_writable; [done|]. unfold writable. by rewrite Hhp. }
  eexists. split; [done|]. cbn [snd disk wrote]. rewrite made3_disk.
  apply map_eq. intros q.
  destruct (decide (q = history_path this id)) as [->|Hqh].
  { by rewrite lookup_insert_eq. }
  rewrite lookup_insert_ne by done.
  destruct (decide (q = task_path this id)) as [->|Hqt].
  { by rewrite lookup_insert_eq. }
  rewrite lookup_insert_ne by done.
  destruct (decide (q ∈ Path.directories (baseDir this))) as [Hq|Hq].
  - simpl. rewrite mkdirs_lookup_in by done. symmetry. by apply Hdirs.
  - simpl. by rewrite mkdirs_lookup_notin.
Qed.

Lemma saving_again_changes_nothing_witness :
  ∃ w2,
    save default_store sample_value
      (save default_store sample_value (sample_heap, empty_disk)).2 = (Returns (), w2) ∧
    disk w2.2 = disk (save default_store sample_value (sample_heap, empty_disk)).2.2.
Proof.
  apply (saving_again_changes_nothing default_store 6 sample_heap empty_disk
           sample_value sample_task sample_history "t1").
  - vm_compute. reflexivity.
  - reflexivity.
  - vm_compute. reflexivity.
  - vm_compute. reflexivity.
Defined.

(** X13. The metadata file of task [y.history] is the history file of
    task [y]: a [save] of [y.history] that returned has put its task
    document where [load] reads the history of [y], and a task document
    without a [messageHistory] there reads as the empty history. *)
Theorem saving_the_history_named_task_replaces_a_history this n h σ data tt th y w1 :
  view n h data = Some (tt, th) → task_id tt = Some (y +:+ ".history") →
  valid_id (y +:+ ".history") = true →
  save this data (h, σ) = (Returns (), w1) →
  disk w1.2 !! history_path this y = Some (Regular (Text tt)) ∧
  (get tt "messageHistory" = None →
     recovered_history (disk w1.2 !! history_path this y) = JArr []).
Proof.
  intros Hview Hid Hv Hsave.
  destruct (view_shape _ _ _ _ _ _ Hview Hid)
    as (ld & d & lt & tps & hv & -> & Hld & Htask & Hlt & Hidp & Hhist & Hrt & Hrh).
  destruct (save_returns this _ _ _ _ _ _ _ _ _ _ Hld Htask Hlt Hidp Hhist Hv Hsave)
    as (tt' & wd & Hsub & Htt' & _ & _ & _ & _ & _ & Hdisk).
  assert (Some tt' = Some tt) as [= ->].
  { eapply serialize_reify; [|exact Htt']. by eapply reify_weaken. }
  rewrite <-task_path_of_history_name. rewrite Hdisk.
  pose proof (task_path_ne_history_path this (y +:+ ".history") Hv) as Hth.
  rewrite lookup_insert_ne by done. rewrite lookup_insert_eq.
  split; [done|].
  intros Hmh. unfold recovered_history, isHistoryFileContent.
  destruct tt as [| | | | |fs]; try done. simpl in *. by rewrite Hmh.
Qed.

Lemma saving_the_history_named_task_witness :
  disk (save default_store sample_value (sample_heap_for "b.history", empty_disk)).2.2
    !! history_path default_store "b"
  = Some (Regular (Text (JObj [("id", JStr "b.history");
                               ("status", JObj [("state", JStr "working")])]))).
Proof.
  apply (saving_the_history_named_task_replaces_a_history default_store 6
           (sample_heap_for "b.history") empty_disk sample_value
           (JObj [("id", JStr "b.history"); ("status", JObj [("state", JStr "working")])])
           sample_history "b"
           (save default_store sample_value (sample_heap_for "b.history", empty_disk)).2).
  - vm_compute. reflexivity.
  - reflexivity.
  - vm_compute. reflexivity.
  - vm_compute. reflexivity.
Defined.
End SaveFurther.

(** ** What [InMemoryTaskStore] keeps apart *)

Section InMemoryFurther.
Import InMemoryTaskStore.
Implicit Types (h : heap) (m : gmap string jsval) (n : nat) (id : string).

Ltac step := unfold mbind, M_bind, mret, M_ret, throw, get_backing, set_backing,
               props_of, elems_of, prop, string_of, alloc; simpl.

(** X14. [load] never changes the map of the store nor any object of the
    heap, whatever it is asked for, and for an id the map does not hold it
    answers [null] and allocates nothing. *)
Theorem in_memory_load_keeps_the_store id h m :
  (load id (h, m)).2.2 = m ∧
  h ⊆ (load id (h, m)).2.1 ∧
  (m !! id = None → load id (h, m) = (Returns VNull, (h, m))).
Proof.
  unfold load. step.
  destruct (m !! id) as [entry|]; [|done]. split_and!; [| |done].
  - destruct entry as [| | | |e| |]; try done.
    destruct (h !! e) as [[ps|]|]; try done. simpl.
    destruct (assoc "task" ps) as [task|]; [|done]. simpl.
    destruct (assoc "history" ps) as [history|]; [|done]. simpl.
    destruct task as [| | | |lt| |]; try done.
    destruct (h !! lt) as [[tps|]|]; try done. simpl.
    destruct history as [| | | |lh| |]; try done.
    by destruct (h !! lh) as [[|hs]|].
  - destruct entry as [| | | |e| |]; try done.
    destruct (h !! e) as [[ps|]|]; try done. simpl.
    destruct (assoc "task" ps) as [task|]; [|done]. simpl.
    destruct (assoc "history" ps) as [history|]; [|done]. simpl.
    destruct task as [| | | |lt| |]; try done.
    destruct (h !! lt) as [[tps|]|]; try done. simpl.
    destruct history as [| | | |lh| |]; try done.
    destruct (h !! lh) as [[|hs]|]; try done. simpl.
    etrans; [|etrans]; [| |eapply (new_object_subseteq _ _ _ _ eq_refl)];
      eapply (new_object_subseteq _ _ _ _ eq_refl).
Qed.

Lemma InMemory_load_fresh h m id e d l1 l2 tps hs :
  m !! id = Some (VRef e) → h !! e = Some (OObject d) →
  assoc "task" d = Some (VRef l1) → assoc "history" d = Some (VRef l2) →
  h !! l1 = Some (OObject tps) → h !! l2 = Some (OArray hs) →
  ∃ h' r l1' l2',
    load id (h, m) = (Returns (VRef r), (h', m)) ∧ h ⊆ h' ∧
    h' !! r = Some (OObject [("task", VRef l1'); ("history", VRef l2')]) ∧
    h' !! l1' = Some (OObject tps) ∧ h' !! l2' = Some (OArray hs) ∧
    h !! r = None ∧ h !! l1' = None ∧ h !! l2' = None.
Proof.
  intros Hm He Htask Hhist Hl1 Hl2.
  unfold load. step. rewrite Hm. step. rewrite He. step. rewrite Htask. step.
  rewrite Hhist. step. rewrite Hl1. step. rewrite Hl2. step.
  set (l1' := fresh (dom h)).
  set (h1 := <[l1' := OObject tps]> h).
  set (l2' := fresh (dom h1)).
  set (h2 := <[l2' := OArray hs]> h1).
  set (r := fresh (dom h2)).
  set (h3 := <[r := OObject [("task", VRef l1'); ("history", VRef l2')]]> h2).
  assert (h !! l1' = None) as F1 by apply not_elem_of_dom, is_fresh.
  assert (h1 !! l2' = None) as F2 by apply not_elem_of_dom, is_fresh.
  assert (h2 !! r = None) as F3 by apply not_elem_of_dom, is_fresh.
  assert (h ⊆ h1) as S1 by by apply insert_subseteq.
  assert (h1 ⊆ h2) as S2 by by apply insert_subseteq.
  assert (h2 ⊆ h3) as S3 by by apply insert_subseteq.
  assert (h ⊆ h2) as S12 by by etrans.
  exists h3, r, l1', l2'. split_and!; [done|by etrans|..].
  - apply lookup_insert_eq.
  - eapply lookup_weaken; [|exact S3]. eapply lookup_weaken; [|exact S2].
    apply lookup_insert_eq.
  - eapply lookup_weaken; [|exact S3]. apply lookup_insert_eq.
  - destruct (h !! r) eqn:Hr; [|done].
    by rewrite (lookup_weaken _ _ _ _ Hr S12) in F3.
  - done.
  - destruct (h !! l2') eqn:Hr; [|done].
    by rewrite (lookup_weaken _ _ _ _ Hr S1) in F2.
Qed.

(** X15. The copies [load] hands out are the caller's own at the top
    level: the object it returns, its task object and its history array
    are new objects, and whatever the caller puts in their place, a later
    [load] of the same id returns the trees that were stored. *)
Theorem in_memory_load_returns_fresh_top_level n h m id t ms id' :
  stored n h m id = Some (t, JArr ms) → task_id t = Some id' →
  ∃ lr l1 l2 h',
    load id (h, m) = (Returns (VRef lr), (h', m)) ∧
    h' !! lr = Some (OObject [("task", VRef l1); ("history", VRef l2)]) ∧
    h !! lr = None ∧ h !! l1 = None ∧ h !! l2 = None ∧
    view n h' (VRef lr) = Some (t, JArr ms) ∧
    ∀ o1 o2 o3, ∃ r' h3,
      load id (<[lr := o1]> (<[l1 := o2]> (<[l2 := o3]> h')), m)
        = (Returns r', (h3, m)) ∧
      view n h3 r' = Some (t, JArr ms).
Proof.
  intros Hst Hid. pose proof Hst as Hst0.
  unfold stored in Hst. destruct (m !! id) as [e|] eqn:Hm; [|done]. simpl in Hst.
  destruct (view_shape _ _ _ _ _ _ Hst Hid)
    as (le & d & lt & tps & hv & -> & Hle & Htask & Hlt & Hidp & Hhist & Hrt & Hrh).
  destruct (reify_arr_inv _ _ _ _ Hrh) as (lh & n' & hs & -> & Hn & Hlh & _).
  destruct (InMemory_load_fresh h m id le d lt lh tps hs)
    as (h' & r & l1' & l2' & Hload & Hsub & Hr & Hl1' & Hl2' & Fr & F1 & F2);
    try done.
  exists r, l1', l2', h'. split_and!; try done.
  - eapply view_intro; [exact Hr|done|done|..].
    + rewrite (reify_ref_same _ _ l1' lt).
      * by eapply reify_weaken.
      * rewrite Hl1'. symmetry. by eapply lookup_weaken.
    + rewrite (reify_ref_same _ _ l2' lh).
      * by eapply reify_weaken.
      * rewrite Hl2'. symmetry. by eapply lookup_weaken.
  - intros o1 o2 o3.
    assert (h ⊆ <[r := o1]> (<[l1' := o2]> (<[l2' := o3]> h'))) as Hsub'
      by by do 3 (apply insert_subseteq_r; [done|]).
    destruct (InMemory_load_stored n _ m id t ms id'
                (stored_weaken _ _ _ _ _ _ Hsub' Hst0) Hid) as (r' & h3 & Hl & _ & Hv).
    by exists r', h3.
Qed.

Lemma in_memory_load_returns_fresh_top_level_witness :
  ∃ lr h',
    load "t1" (save sample_value (sample_heap, (∅ : backing))).2
      = (Returns (VRef lr), (h', (save sample_value (sample_heap, (∅ : backing))).2.2)) ∧
    (save sample_value (sample_heap, (∅ : backing))).2.1 !! lr = None.
Proof.
  assert (stored 6 (save sample_value (sample_heap, (∅ : backing))).2.1
            (save sample_value (sample_heap, (∅ : backing))).2.2 "t1"
          = Some (sample_task,
                  JArr [JObj [("role", JStr "user");
                              ("parts", JArr [JObj [("type", JStr "text");
                                                    ("text", JStr "hello")]])]]))
    as Hstored by (vm_compute; reflexivity).
  destruct (in_memory_load_returns_fresh_top_level 6 _ _ "t1" sample_task _ "t1"
              Hstored eq_refl)
    as (lr & l1 & l2 & h' & Hload & _ & Hfresh & _).
  exists lr, h'. split; [exact Hload|exact Hfresh].
Defined.

(** X16. Saving task [x] leaves the entry of every other task [y] in the
    map, and a [load] of [y] after it returns the trees that were stored
    for [y], or [null] when there were none. *)
Theorem in_memory_save_keeps_other_entries n h m data tt ms x y :
  view n h data = Some (tt, JArr ms) → task_id tt = Some x → x ≠ y →
  ∃ h1 m1,
    save data (h, m) = (Returns (), (h1, m1)) ∧
    m1 !! y = m !! y ∧
    (∀ t hs y', stored n h m y = Some (t, JArr hs) → task_id t = Some y' →
       ∃ r h2, load y (h1, m1) = (Returns r, (h2, m1)) ∧
               view n h2 r = Some (t, JArr hs)) ∧
    (m !! y = None → load y (h1, m1) = (Returns VNull, (h1, m1))).
Proof.
  intros Hview Hid Hxy.
  destruct (InMemory_save_frame n h m data tt ms x y Hview Hid Hxy)
    as (h1 & m1 & Hsave & Hy & Hst).
  exists h1, m1. split_and!; [done..| |].
  - intros t hs y' Hstored Hty.
    destruct (InMemory_load_stored n h1 m1 y t hs y' (Hst _ Hstored) Hty)
      as (r & h2 & Hl & _ & Hv).
    by exists r, h2.
  - intros Hnone. apply InMemory_load_absent. by rewrite Hy.
Qed.

Lemma in_memory_save_keeps_other_entries_witness :
  ∃ h1 m1,
    save sample_value (sample_heap, (∅ : backing)) = (Returns (), (h1, m1)) ∧
    m1 !! "t2" = (∅ : backing) !! "t2".
Proof.
  assert (view 6 sample_heap sample_value
          = Some (sample_task,
                  JArr [JObj [("role", JStr "user");
                              ("parts", JArr [JObj [("type", JStr "text");
                                                    ("text", JStr "hello")]])]]))
    as Hview by (vm_compute; reflexivity).
  assert ("t1" ≠ "t2") as Hne by discriminate.
  destruct (in_memory_save_keeps_other_entries 6 sample_heap (∅ : backing)
              sample_value sample_task _ "t1" "t2" Hview eq_refl Hne)
    as (h1 & m1 & Hsave & Hy & _).
  exists h1, m1. split; [exact Hsave|exact Hy].
Defined.
End InMemoryFurther.

(** * Properties of the research agent *)

Section Researcher.
Import ResearcherAgent.
Implicit Types (invoke : llm) (m p : json) (ms ps : list json).
Implicit Types (c : chat_message) (cs : list chat_message).

Lemma has_text_cases p :
  (p ≠ JNull ∧ has_text p = Returns (FileStore.truthy (FileStore.get p "text"))) ∨
  (p = JNull ∧
   has_text p = Throws (TypeError "Cannot read properties of null (reading 'text')")).
Proof. destruct p; first [by left | by right]. Qed.

Lemma filter_parts_cases ps :
  (Forall (λ p, p ≠ JNull) ps ∧
   filter_parts has_text ps
   = Returns (filter (λ p, FileStore.truthy (FileStore.get p "text") = true) ps)) ∨
  (¬ Forall (λ p, p ≠ JNull) ps ∧
   filter_parts has_text ps
   = Throws (TypeError "Cannot read properties of null (reading 'text')")).
Proof.
  induction ps as [|p ps IH]; [by left|].
  cbn [filter_parts].
  destruct (has_text_cases p) as [[Hp ->]|[Hp ->]].
  - destruct IH as [[Hps ->]|[Hps ->]].
    + left. split; [by constructor|].
      rewrite filter_cons.
      destruct (FileStore.truthy (FileStore.get p "text")); by case_decide.
    + right. split; [|done]. by inversion 1.
  - right. split; [|done]. by inversion 1.
Qed.

Lemma to_chat_message_cases m :
  (convertible m ∧ to_chat_message m = Returns (chat_of m)) ∨
  (¬ convertible m ∧ ∃ msg, to_chat_message m = Throws (TypeError msg)).
Proof.
  unfold to_chat_message, convertible, chat_of, texts_of.
  destruct (FileStore.is_null m) eqn:Hnull.
  { right. split; [|by eexists]. destruct m; try done. by intros [? _]. }
  assert (m ≠ JNull) as Hm by (by intros ->).
  destruct (FileStore.get m "parts") as [[| | | |ps|]|] eqn:Hparts;
    try (right; split; [by intros (_ & ? & ? & _)|by eexists]).
  destruct (filter_parts_cases ps) as [[Hps ->]|[Hps ->]].
  - left. split; [|done]. split; [done|]. by exists ps.
  - right. split; [|by eexists].
    intros (_ & ps' & Heq & Hall). by simplify_eq.
Qed.

Lemma map_messages_cases ms :
  (Forall convertible ms ∧ map_messages ms = Returns (chat_of <$> ms)) ∨
  (¬ Forall convertible ms ∧ ∃ msg, map_messages ms = Throws (TypeError msg)).
Proof.
  induction ms as [|m ms IH]; [by left|].
  cbn [map_messages].
  destruct (to_chat_message_cases m) as [[Hm ->]|[Hm [msg ->]]].
  - destruct IH as [[Hms ->]|[Hms [msg ->]]].
    + left. split; [by constructor|done].
    + right. split; [by inversion 1|by eexists].
  - right. split; [by inversion 1|by eexists].
Qed.

Lemma messages_cases history :
  (Forall convertible (default [] history) ∧
   messages history
   = Returns (filter (λ c, content c ≠ []) (chat_of <$> default [] history))) ∨
  (¬ Forall convertible (default [] history) ∧
   ∃ msg, messages history = Throws (TypeError msg)).
Proof.
  unfold messages.
  destruct (map_messages_cases (default [] history)) as [[H ->]|[H [msg ->]]].
  - by left.
  - right. split; [done|by eexists].
Qed.

Lemma role_of_cases m : role_of m = "assistant" ∨ role_of m = "user".
Proof.
  unfold role_of. destruct (FileStore.get m "role") as [[| | |r| |]|]; auto.
  destruct (String.eqb r "agent"); auto.
Qed.

Lemma texts_of_truthy m :
  Forall (λ t, ∃ v, t = Some v ∧ FileStore.truthy (Some v) = true) (texts_of m).
Proof.
  unfold texts_of.
  destruct (FileStore.get m "parts") as [[| | | |ps|]|]; try by constructor.
  apply Forall_fmap, Forall_forall. intros p Hp.
  apply list_elem_of_filter in Hp as [Hp _]. simpl.
  destruct (FileStore.get p "text") as [v|]; [by exists v|done].
Qed.

Lemma messages_well_formed history cs :
  messages history = Returns cs → Forall well_formed cs.
Proof.
  destruct (messages_cases history) as [[_ ->]|[_ [msg ->]]]; [|done].
  intros [= <-]. apply Forall_forall. intros c Hc.
  apply list_elem_of_filter in Hc as [Hne Hc].
  apply list_elem_of_fmap in Hc as (m & -> & _).
  split_and!; [apply role_of_cases|done|apply texts_of_truthy].
Qed.

Lemma convertible_history_yields history invoke :
  Forall convertible (default [] history) →
  (researcherAgent invoke history).1 ≠ [].
Proof.
  intros Hall. unfold researcherAgent.
  destruct (messages_cases history) as [[_ ->]|[Hnot _]]; [|done].
  destruct (filter _ _) as [|c cs]; [done|].
  destruct (invoke (c :: cs)) as [result|e]; [|done].
  by destruct (last result).
Qed.

Lemma unconvertible_history_throws history :
  ¬ Forall convertible (default [] history) →
  ∃ msg, ∀ invoke, researcherAgent invoke history = ([], Throws (TypeError msg)).
Proof.
  intros Hnot.
  destruct (messages_cases history) as [[Hall _]|[_ [msg Hmsg]]]; [done|].
  exists msg. intros invoke. unfold researcherAgent. by rewrite Hmsg.
Qed.

(** X17. The agent ends with a [TypeError] before it yields anything
    exactly when some entry of the history cannot be converted: the entry
    is [null], its [parts] are no array, or one of its parts is [null].
    The model plays no role then; on every other history the agent yields
    at least one update. *)
Theorem unconvertible_history_stops_the_agent_before_any_update history :
  (¬ Forall convertible (default [] history) →
     ∃ msg, ∀ invoke,
       researcherAgent invoke history = ([], Throws (TypeError msg))) ∧
  (Forall convertible (default [] history) →
     ∀ invoke, (researcherAgent invoke history).1 ≠ []) ∧
  ((∃ invoke e, researcherAgent invoke history = ([], Throws e))
     ↔ ¬ Forall convertible (default [] history)).
Proof.
  split_and!.
  - apply unconvertible_history_throws.
  - intros Hall invoke. by apply convertible_history_yields.
  - split.
    + intros (invoke & e & Hrun) Hall.
      apply (convertible_history_yields history invoke Hall). by rewrite Hrun.
    + intros Hnot. destruct (unconvertible_history_throws history Hnot) as [msg Hmsg].
      exists echo, (TypeError msg). apply Hmsg.
Qed.

Lemma unconvertible_history_witness :
  ∃ msg, ∀ invoke,
    researcherAgent invoke (Some [stray_entry]) = ([], Throws (TypeError msg)).
Proof.
  apply (unconvertible_history_stops_the_agent_before_any_update
           (Some [stray_entry])).
  intros Hall. apply Forall_cons in Hall as [(_ & ps & Hps & _) _].
  discriminate Hps.
Defined.

(** X18. On a history that can be converted, the agent reports [failed]
    with the text [No input message found.] and returns, without asking
    the model, exactly when no part of any entry has a truthy [text]; an
    absent history is such a one.  Otherwise its first update is
    [working] and the model is asked once. *)
Theorem agent_fails_exactly_when_the_history_has_no_text invoke history :
  Forall convertible (default [] history) →
  (Forall (λ m, texts_of m = []) (default [] history) →
     researcherAgent invoke history = ([failed], Returns ())) ∧
  (¬ Forall (λ m, texts_of m = []) (default [] history) →
     ∃ cs, cs ≠ [] ∧ messages history = Returns cs ∧
       head (researcherAgent invoke history).1 = Some working ∧
       researcherAgent invoke history
       = match invoke cs with
         | Throws e => ([working], Throws e)
         | Returns result =>
             match last result with
             | Some answer => ([working; completed answer], Returns ())
             | None =>
                 ([working],
                  Throws (TypeError
                    "Cannot read properties of undefined (reading 'content')"))
             end
         end) ∧
  (researcherAgent invoke history = ([failed], Returns ())
     ↔ Forall (λ m, texts_of m = []) (default [] history)).
Proof.
  intros Hall.
  destruct (messages_cases history) as [[_ Hmsgs]|[Hnot _]]; [|done].
  assert (filter (λ c, content c ≠ []) (chat_of <$> default [] history) = []
          ↔ Forall (λ m, texts_of m = []) (default [] history)) as Hempty.
  { generalize (default [] history). intros ms. clear.
    induction ms as [|m ms IH]; [done|].
    rewrite fmap_cons, filter_cons. simpl.
    case_decide as Hm.
    - split; [done|]. intros [? _]%Forall_cons. done.
    - rewrite IH. split.
      + by constructor.
      + by intros [_ ?]%Forall_cons. }
  assert (Forall (λ m, texts_of m = []) (default [] history) →
          researcherAgent invoke history = ([failed], Returns ())) as Hfail.
  { intros Hno. unfold researcherAgent. rewrite Hmsgs.
    apply Hempty in Hno. by rewrite Hno. }
  assert (¬ Forall (λ m, texts_of m = []) (default [] history) →
          ∃ cs, cs ≠ [] ∧ messages history = Returns cs ∧
            head (researcherAgent invoke history).1 = Some working ∧
            researcherAgent invoke history
            = match invoke cs with
              | Throws e => ([working], Throws e)
              | Returns result =>
                  match last result with
                  | Some answer => ([working; completed answer], Returns ())
                  | None =>
                      ([working],
                       Throws (TypeError
                         "Cannot read properties of undefined (reading 'content')"))
                  end
              end) as Hask.
  { intros Hsome. rewrite <-Hempty in Hsome.
    unfold researcherAgent. rewrite Hmsgs.
    destruct (filter _ _) as [|c cs] eqn:Hcs; [done|].
    exists (c :: cs). split_and!; [done..| |done].
    destruct (invoke (c :: cs)) as [result|e]; [|done].
    by destruct (last result). }
  split_and!; [done..|]. split; [|done].
  intros Hrun.
  destruct (decide (Forall (λ m, texts_of m = []) (default [] history)))
    as [|Hsome]; [done|].
  destruct (Hask Hsome) as (cs & _ & _ & Hhead & _).
  by rewrite Hrun in Hhead.
Qed.

Lemma agent_fails_witness :
  researcherAgent echo
    (Some [JObj [("role", JStr "user");
                 ("parts", JArr [JObj [("type", JStr "file")]])]])
  = ([failed], Returns ()).
Proof.
  apply (agent_fails_exactly_when_the_history_has_no_text echo
           (Some [JObj [("role", JStr "user");
                        ("parts", JArr [JObj [("type", JStr "file")]])]])).
  - repeat constructor; [done|]. eexists. split; [reflexivity|].
    repeat constructor. done.
  - repeat constructor.
Defined.

(** X19. The model is only ever given a list of messages that is not
    empty, whose roles are [assistant] or [user] and whose contents are not
    empty and hold truthy texts only: what a model answers to any other
    list has no effect on the run of the agent. *)
Theorem model_is_only_given_well_formed_messages invoke1 invoke2 history :
  (∀ cs, cs ≠ [] → Forall well_formed cs → invoke1 cs = invoke2 cs) →
  researcherAgent invoke1 history = researcherAgent invoke2 history.
Proof.
  intros Hagree. unfold researcherAgent.
  destruct (messages history) as [[|c cs]|e] eqn:Hmsgs; [done| |done].
  rewrite Hagree; [done..|]. by apply (messages_well_formed history).
Qed.

Lemma model_is_only_given_well_formed_messages_witness :
  researcherAgent echo (Some [text_message])
  = researcherAgent
      (λ cs, match cs with
             | [] => Throws (TypeError "no messages")
             | _ => echo cs
             end)
      (Some [text_message]).
Proof.
  apply (model_is_only_given_well_formed_messages echo
           (λ cs, match cs with
                  | [] => Throws (TypeError "no messages")
                  | _ => echo cs
                  end)
           (Some [text_message])).
  intros cs Hne _. destruct cs; [done|reflexivity].
Defined.

(** X20. The conversion loses no text and keeps the order: the texts
    given to the model, message after message, are the truthy texts of the
    parts of the history, entry after entry; the messages given are at
    most as many as the entries, and their roles follow the roles of the
    entries in order ([agent] becomes [assistant], every other role
    [user]). *)
Theorem conversion_keeps_every_text_in_order history cs :
  messages history = Returns cs →
  concat (content <$> cs) = concat (texts_of <$> default [] history) ∧
  (length cs ≤ length (default [] history))%nat ∧
  (role <$> cs) `sublist_of` (role_of <$> default [] history).
Proof.
  destruct (messages_cases history) as [[_ ->]|[_ [msg ->]]]; [|done].
  intros [= <-]. generalize (default [] history). intros ms.
  induction ms as [|m ms (IH1 & IH2 & IH3)]; [done|].
  rewrite !fmap_cons, filter_cons. simpl.
  case_decide as Hm.
  - rewrite fmap_cons. simpl. rewrite IH1.
    split_and!; [done|lia|by constructor].
  - simpl in Hm. rewrite Hm. simpl.
    split_and!; [done|lia|by constructor].
Qed.

Lemma conversion_keeps_every_text_witness :
  concat (content <$> [ChatMessage "user" [Some (JStr "hello")]])
  = concat (texts_of <$> default [] (Some [text_message; file_message])).
Proof.
  apply (conversion_keeps_every_text_in_order
           (Some [text_message; file_message])).
  reflexivity.
Defined.

Lemma convertible_iff m :
  convertible m ↔ m ≠ JNull ∧ unusable_parts m = false.
Proof.
  unfold convertible, unusable_parts. split.
  - intros (Hm & ps & -> & Hall). split; [done|].
    induction Hall as [|p ps Hp _ IH]; [done|].
    simpl. rewrite IH. by destruct p.
  - intros [Hm Hparts]. split; [done|].
    destruct (FileStore.get m "parts") as [[| | | |ps|]|]; try done.
    exists ps. split; [done|].
    induction ps as [|p ps IH]; [done|].
    simpl in Hparts. apply orb_false_iff in Hparts as [Hp Hps].
    constructor; [by intros ->|by apply IH].
Qed.

Lemma guard_excludes_null ms :
  FileStore.every FileStore.message_guard ms = Returns true → Forall (λ m, m ≠ JNull) ms.
Proof.
  induction ms as [|m ms IH]; [done|].
  cbn [FileStore.every]. destruct (FileStore.message_guard m) as [[|]|e] eqn:Hm; try done.
  intros Hrest. constructor; [|by apply IH]. by intros ->.
Qed.

(** X21. The guard of the file store lets through histories that stop the
    agent.  Entries accepted by [isHistoryFileContent] are not [null] and
    have truthy [parts]; the agent still ends with a [TypeError] before
    any update exactly when the [parts] of one of them are no array or
    hold a [null]. *)
Theorem accepted_history_file_can_stop_the_agent ms :
  FileStore.every FileStore.message_guard ms = Returns true →
  ((∃ msg, ∀ invoke,
      researcherAgent invoke (Some ms) = ([], Throws (TypeError msg)))
   ↔ existsb unusable_parts ms = true).
Proof.
  intros Hnn%guard_excludes_null.
  assert (Forall convertible ms ↔ existsb unusable_parts ms = false) as Hconv.
  { induction Hnn as [|m ms Hm Hms IH]; [done|].
    rewrite Forall_cons, IH, convertible_iff. simpl.
    rewrite orb_false_iff. tauto. }
  split.
  - intros [msg Hmsg].
    destruct (existsb unusable_parts ms); [done|].
    assert (Forall convertible ms) as Hall by by apply Hconv.
    by destruct (convertible_history_yields (Some ms) echo Hall); rewrite Hmsg.
  - intros Hex. apply (unconvertible_history_throws (Some ms)).
    intros Hall. apply Hconv in Hall. simpl in Hall. congruence.
Qed.

Lemma accepted_history_file_witness :
  FileStore.every FileStore.message_guard [stray_entry] = Returns true ∧
  ∃ msg, ∀ invoke,
    researcherAgent invoke (Some [stray_entry]) = ([], Throws (TypeError msg)).
Proof.
  split; [reflexivity|].
  apply (accepted_history_file_can_stop_the_agent [stray_entry]); reflexivity.
Defined.

End Researcher.
